(** * VoiceTable: pipeline editor, guided session, table updates, CSV import

    A shallow embedding of the TypeScript sources

      - [types.ts]                      (records and enumerations),
      - [components/WorkflowWizard.tsx] (pipeline edit operations),
      - [components/GuidedSession.tsx]  (the guided voice session),
      - [App.tsx]                       (application of updates to the table,
                                         the render of the table body),
      - [services/fileService.ts]       (CSV import),
      - [services/geminiService.ts]     (translation of the model responses),
      - [components/ColumnSettings.tsx] (column edits),

    followed by the properties the specification states about them.

    Representation choices.
      - A JavaScript string is a [string] holding its UTF-8 encoding.  All
        patterns the sources search for are ASCII or whole words, so byte-wise
        search, splitting and replacement coincide with the code-unit-wise
        operations of the engine on well-formed text.
      - A JavaScript number that holds a row index or a position is an
        integer ([Z] or [nat]); where the sources pass between text and
        number ([parseInt], [String]) the rounding to binary64 is written
        out ([Number]); numbers produced by [parseFloat] are binary64 values
        ([spec_float]).
      - An object used as a dictionary is a [gmap string _]; an array is a
        list.  A position of the [rows] array is a [Slot]: a hole, the value
        [undefined], or a row; the copy [[...rows]] and [rows.map] tell the
        first two apart.
      - A result of type [option] is [None] where the code throws or where
        the new state leaves the types of this development.
      - The engine functions whose tables are too large to embed
        ([String.prototype.toLowerCase], [parseFloat], [String] on numbers)
        are fields of the class [Engine]; the theorems about the session
        and the import hold for every engine, and [basicEngine] is an
        executable instance.  The row number shown by the editor is the
        decimal numeral up to [2^53] and takes its digits from
        [BasicEngine] above that. *)

From Stdlib Require Import ZArith Ascii String List Lia Bool.
From Stdlib Require Import Floats.SpecFloat.
From stdpp Require Import gmap strings list sorting pretty.

Local Open Scope Z_scope.

(** ** ECMAScript built-ins used by the sources *)

Module JS.

Definition code (c : ascii) : N := N_of_ascii c.

Definition isDigit (c : ascii) : bool :=
  ((48 <=? code c) && (code c <=? 57))%N.

(** The double-quote character, written by its code. *)
Definition dquote : ascii := ascii_of_N 34.

(** One-byte members of WhiteSpace and LineTerminator:
    TAB, LF, VT, FF, CR, SP. *)
Definition isSpaceByte (c : ascii) : bool :=
  let n := code c in
  ((n =? 9) || (n =? 10) || (n =? 11) || (n =? 12) || (n =? 13) || (n =? 32))%N.

(** Two-byte member: U+00A0 (C2 A0). *)
Definition isSpace2 (a b : ascii) : bool :=
  ((code a =? 194) && (code b =? 160))%N.

(** Three-byte members: U+1680, U+2000..U+200A, U+2028, U+2029, U+202F,
    U+205F, U+3000, U+FEFF. *)
Definition isSpace3 (a b c : ascii) : bool :=
  let x := code a in let y := code b in let z := code c in
  (((x =? 225) && (y =? 154) && (z =? 128))
   || ((x =? 226) && (y =? 128)
       && (((128 <=? z) && (z <=? 138)) || (z =? 168) || (z =? 169) || (z =? 175)))
   || ((x =? 226) && (y =? 129) && (z =? 159))
   || ((x =? 227) && (y =? 128) && (z =? 128))
   || ((x =? 239) && (y =? 187) && (z =? 191)))%N.

(** [String.prototype.trimStart]. *)
Fixpoint trimStart (s : string) : string :=
  match s with
  | EmptyString => EmptyString
  | String a t =>
      if isSpaceByte a then trimStart t
      else match t with
           | EmptyString => s
           | String b t1 =>
               if isSpace2 a b then trimStart t1
               else match t1 with
                    | EmptyString => s
                    | String c t2 => if isSpace3 a b c then trimStart t2 else s
                    end
           end
  end.

(** [String.prototype.trimEnd]: the text is kept up to the point from which
    only white space follows. *)
Fixpoint trimEnd (s : string) : string :=
  match s with
  | EmptyString => EmptyString
  | String a t =>
      match trimStart s with
      | EmptyString => EmptyString
      | String _ _ => String a (trimEnd t)
      end
  end.

(** [String.prototype.trim]. *)
Definition trim (s : string) : string := trimEnd (trimStart s).

(** [s.startsWith(w)]. *)
Fixpoint startsWith (s w : string) : bool :=
  match w, s with
  | EmptyString, _ => true
  | String _ _, EmptyString => false
  | String b w', String a s' => if Ascii.eqb a b then startsWith s' w' else false
  end.

(** [s.includes(w)]. *)
Fixpoint includes (s w : string) : bool :=
  startsWith s w ||
  match s with
  | EmptyString => false
  | String _ s' => includes s' w
  end.

Fixpoint dropChars (n : nat) (s : string) : string :=
  match n, s with
  | O, _ => s
  | S _, EmptyString => EmptyString
  | S n', String _ s' => dropChars n' s'
  end.

(** [s.replace(pat, rep)] for a string pattern: only the first occurrence
    of [pat] is replaced (the replacement text here never contains [$]). *)
Fixpoint replace (s pat rep : string) : string :=
  if startsWith s pat then rep +:+ dropChars (String.length pat) s
  else match s with
       | EmptyString => EmptyString
       | String a s' => String a (replace s' pat rep)
       end.

(** [s.replaceAll(pat, rep)] for a one-character pattern; the sources never
    call it, it states what replacing every separator would give. *)
Fixpoint replaceAllChar (s : string) (pat : ascii) (rep : string) : string :=
  match s with
  | EmptyString => EmptyString
  | String a s' =>
      (if Ascii.eqb a pat then rep else String a EmptyString)
        +:+ replaceAllChar s' pat rep
  end.

(** [s.split(sep)] for a one-character separator. *)
Fixpoint splitChar (s : string) (sep : ascii) : list string :=
  match s with
  | EmptyString => [EmptyString]
  | String a s' =>
      if Ascii.eqb a sep then EmptyString :: splitChar s' sep
      else match splitChar s' sep with
           | [] => [String a EmptyString]
           | x :: xs => String a x :: xs
           end
  end.

(** [s.split(/\r\n|\n/)]. *)
Fixpoint splitLines (s : string) : list string :=
  match s with
  | EmptyString => [EmptyString]
  | String a s' =>
      let cons_char c r :=
        match r with [] => [String c EmptyString] | x :: xs => String c x :: xs end in
      if (code a =? 10)%N then EmptyString :: splitLines s'
      else if (code a =? 13)%N then
        match s' with
        | String b s'' =>
            if (code b =? 10)%N then EmptyString :: splitLines s''
            else cons_char a (splitLines s')
        | EmptyString => cons_char a (splitLines s')
        end
      else cons_char a (splitLines s')
  end.

Fixpoint dropLastQuote (s : string) : string :=
  match s with
  | EmptyString => EmptyString
  | String a EmptyString => if Ascii.eqb a dquote then EmptyString else s
  | String a s' => String a (dropLastQuote s')
  end.

(** [s.replace(/^Q|Q$/g, '')] where Q is the double quote: a quote at the
    very start and a quote at the very end are removed (a string that is
    one quote is matched by the first alternative only). *)
Definition stripQuotes (s : string) : string :=
  match s with
  | String a s' => if Ascii.eqb a dquote then dropLastQuote s' else dropLastQuote s
  | EmptyString => EmptyString
  end.

(** The longest prefix of decimal digits, and what follows it. *)
Fixpoint spanDigits (s : string) : string * string :=
  match s with
  | String a s' =>
      if isDigit a then let '(d, r) := spanDigits s' in (String a d, r)
      else (EmptyString, s)
  | EmptyString => (EmptyString, EmptyString)
  end.

(** [\d+(\.\d+)?] anchored at the start of [s]; both quantifiers are greedy
    and the pattern never has to give digits back. *)
Definition matchDecimalHere (s : string) : option string :=
  match spanDigits s with
  | (EmptyString, _) => None
  | (d, r) =>
      match r with
      | String dot r' =>
          if Ascii.eqb dot "."%char then
            match spanDigits r' with
            | (EmptyString, _) => Some d
            | (f, _) => Some (d +:+ String dot f)
            end
          else Some d
      | EmptyString => Some d
      end
  end.

(** [-?\d+(\.\d+)?] anchored at the start of [s]. *)
Definition matchNumberHere (s : string) : option string :=
  match s with
  | String a s' =>
      if Ascii.eqb a "-"%char then
        match matchDecimalHere s' with
        | Some m => Some (String a m)
        | None => matchDecimalHere s
        end
      else matchDecimalHere s
  | EmptyString => None
  end.

(** [s.match(/-?\d+(\.\d+)?/)]: element 0 of the leftmost match, or [None]
    for [null]. *)
Fixpoint matchNumber (s : string) : option string :=
  match matchNumberHere s with
  | Some m => Some m
  | None =>
      match s with
      | EmptyString => None
      | String _ s' => matchNumber s'
      end
  end.

End JS.

(** ** The engine functions kept abstract *)

Class Engine := {
  (** [String.prototype.toLowerCase] *)
  toLowerCase : string → string;
  (** [parseFloat] *)
  parseFloat : string → spec_float;
  (** [String(x)] for a number [x] *)
  numberToString : spec_float → string
}.

Definition isNaN (x : spec_float) : bool :=
  match x with S754_nan => true | _ => false end.

Definition isFinite (x : spec_float) : bool :=
  match x with S754_zero _ | S754_finite _ _ _ => true | _ => false end.

(** ** An executable engine

  [toLowerCase] for Basic Latin and for the Cyrillic block U+0400..U+042F
  (the two session languages); [parseFloat] and [String] on numbers by
  exact rational arithmetic rounded to binary64. *)

Module BasicEngine.

Definition chr (n : N) : ascii := ascii_of_N n.

Fixpoint lower (s : string) : string :=
  match s with
  | EmptyString => EmptyString
  | String a t =>
      let n := JS.code a in
      if ((65 <=? n) && (n <=? 90))%N then String (chr (n + 32)) (lower t)
      else if (n =? 208)%N then
        match t with
        | String b t' =>
            let m := JS.code b in
            if ((128 <=? m) && (m <=? 143))%N
            then String (chr 209) (String (chr (m + 16)) (lower t'))
            else if ((144 <=? m) && (m <=? 159))%N
            then String a (String (chr (m + 32)) (lower t'))
            else if ((160 <=? m) && (m <=? 175))%N
            then String (chr 209) (String (chr (m - 32)) (lower t'))
            else String a (String b (lower t'))
        | EmptyString => s
        end
      else String a (lower t)
  end.

(** The value of a run of decimal digits. *)
Definition digitsValue (d : string) : Z :=
  fold_left (λ acc c, 10 * acc + (Z.of_N (JS.code c) - 48))
            (list_ascii_of_string d) 0.

(** [p / q] rounded to the nearest binary64, ties to even. *)
Definition ofRatio (neg : bool) (p q : positive) : spec_float :=
  SFdiv 53 1024 (S754_finite neg p 0) (S754_finite false q 0).

(** [n * 10^e] as a binary64; far outside the range the powers of ten are
    not computed. *)
Definition ofDecimal (neg : bool) (n e : Z) : spec_float :=
  match n with
  | Zpos p =>
      let mag := e + Z.of_nat (String.length (pretty n)) in
      if mag >? 400 then S754_infinity neg
      else if mag <? -400 then S754_zero neg
      else if 0 <=? e then ofRatio neg (p * Z.to_pos (10 ^ e)) 1
      else ofRatio neg p (Z.to_pos (10 ^ (- e)))
  | _ => S754_zero neg
  end.

(** The optional ExponentPart at the start of [s]. *)
Definition exponentPart (s : string) : Z :=
  match s with
  | String c r =>
      if Ascii.eqb c "e"%char || Ascii.eqb c "E"%char then
        let '(neg, r1) :=
          match r with
          | String sg r' =>
              if Ascii.eqb sg "-"%char then (true, r')
              else if Ascii.eqb sg "+"%char then (false, r')
              else (false, r)
          | EmptyString => (false, r)
          end in
        match JS.spanDigits r1 with
        | (EmptyString, _) => 0
        | (d, _) => if neg then - digitsValue d else digitsValue d
        end
      else 0
  | EmptyString => 0
  end.

(** The longest prefix that is a StrUnsignedDecimalLiteral. *)
Definition unsignedLiteral (neg : bool) (s : string) : spec_float :=
  if JS.startsWith s "Infinity" then S754_infinity neg
  else
    let '(int, r1) := JS.spanDigits s in
    let '(frac, r2) :=
      match r1 with
      | String c r =>
          if Ascii.eqb c "."%char then JS.spanDigits r else (EmptyString, r1)
      | EmptyString => (EmptyString, r1)
      end in
    if String.eqb int "" && String.eqb frac "" then S754_nan
    else ofDecimal neg (digitsValue (int +:+ frac))
                   (exponentPart r2 - Z.of_nat (String.length frac)).

Definition parseFloat (s : string) : spec_float :=
  match JS.trimStart s with
  | String c r =>
      if Ascii.eqb c "-"%char then unsignedLiteral true r
      else if Ascii.eqb c "+"%char then unsignedLiteral false r
      else unsignedLiteral false (String c r)
  | EmptyString => S754_nan
  end.

Definition sameFloat (x y : spec_float) : bool :=
  match x, y with
  | S754_finite s1 m1 e1, S754_finite s2 m2 e2 =>
      Bool.eqb s1 s2 && (m1 =? m2)%positive && (e1 =? e2)
  | S754_zero s1, S754_zero s2 => Bool.eqb s1 s2
  | S754_infinity s1, S754_infinity s2 => Bool.eqb s1 s2
  | S754_nan, S754_nan => true
  | _, _ => false
  end.

(** [p / q] as a pair of positive integers for a positive finite value. *)
Definition ratioOf (m : positive) (e : Z) : Z * Z :=
  if 0 <=? e then (Zpos m * 2 ^ e, 1) else (Zpos m, 2 ^ (- e)).

(** The [n] with [10^(n-1) <= p/q < 10^n]. *)
Definition decimalExponent (p q : Z) : Z :=
  let n0 := Z.of_nat (String.length (pretty p)) - Z.of_nat (String.length (pretty q)) in
  let below n := if 0 <=? n then p <? q * 10 ^ n else p * 10 ^ (- n) <? q in
  if below n0 then n0 else n0 + 1.

(** The digits [s] and exponent [n] of Number::toString for a positive
    finite [x = m * 2^e]: the shortest [s] (of [k] digits, [k] counted up
    from [k0]) with [s * 10^(n-k)] rounding to [x], the nearest one when
    two qualify. *)
Fixpoint shortest (fuel : nat) (k : Z) (x : spec_float) (p q n : Z) : Z * Z :=
  match fuel with
  | O => (0, n)
  | S fuel' =>
      let sh := k - n in
      let '(P, Q) := if 0 <=? sh then (p * 10 ^ sh, q) else (p, q * 10 ^ (- sh)) in
      let lo := P / Q in
      let r := P mod Q in
      let hi := lo + 1 in
      let ok s := sameFloat (ofDecimal false s (n - k)) x in
      let norm s := if s =? 10 ^ k then (10 ^ (k - 1), n + 1) else (s, n) in
      match ok lo, ok hi with
      | true, true =>
          match (2 * r ?= Q) with
          | Lt => (lo, n)
          | Gt => norm hi
          | Eq => if Z.even lo then (lo, n) else norm hi
          end
      | true, false => (lo, n)
      | false, true => norm hi
      | false, false => shortest fuel' (k + 1) x p q n
      end
  end.

Definition zeros (n : Z) : string :=
  string_of_list_ascii (replicate (Z.to_nat n) "0"%char).

Definition takeChars (n : Z) (s : string) : string :=
  String.substring 0 (Z.to_nat n) s.

(** Number::toString for a positive finite value. *)
Definition positiveToString (x : spec_float) (m : positive) (e : Z) : string :=
  let '(p, q) := ratioOf m e in
  let '(s, n) := shortest 17 1 x p q (decimalExponent p q) in
  let ds := pretty s in
  let k := Z.of_nat (String.length ds) in
  if (k <=? n) && (n <=? 21) then ds +:+ zeros (n - k)
  else if (0 <? n) && (n <=? 21)
  then takeChars n ds +:+ "." +:+ JS.dropChars (Z.to_nat n) ds
  else if (-6 <? n) && (n <=? 0) then "0." +:+ zeros (- n) +:+ ds
  else
    let ex := n - 1 in
    let tail := (if 0 <=? ex then "e+" else "e-") +:+ pretty (Z.abs ex) in
    if k =? 1 then ds +:+ tail
    else takeChars 1 ds +:+ "." +:+ JS.dropChars 1 ds +:+ tail.

Definition numberToString (x : spec_float) : string :=
  match x with
  | S754_nan => "NaN"
  | S754_zero _ => "0"
  | S754_infinity neg => if neg then "-Infinity" else "Infinity"
  | S754_finite neg m e =>
      (if neg then "-" else "") +:+ positiveToString (S754_finite false m e) m e
  end.

End BasicEngine.

Definition basicEngine : Engine :=
  {| toLowerCase := BasicEngine.lower;
     parseFloat := BasicEngine.parseFloat;
     numberToString := BasicEngine.numberToString |}.

(** ** Numbers that hold a row

    A row number is a binary64 value.  The integers among them are written
    as [Z]; [round53] is the rounding of an exact integer result to the
    nearest binary64, ties to even, and a magnitude of [2^1024] or more is
    an infinity. *)

Module Number.

Inductive t := NaN | Infinity (negative : bool) | Int (z : Z).

(** The integer with 53 significant bits nearest to [n], ties to the even
    significand. *)
Definition round53 (n : Z) : Z :=
  let a := Z.abs n in
  let dropped := Z.log2 a - 52 in
  if dropped <=? 0 then n
  else
    let unit := 2 ^ dropped in
    let q := a / unit in
    let r := a mod unit in
    let up := (unit <? 2 * r) || ((unit =? 2 * r) && Z.odd q) in
    Z.sgn n * ((if up then q + 1 else q) * unit).

(** The Number value for an exact integer. *)
Definition ofInteger (n : Z) : t :=
  let r := round53 n in
  if 2 ^ 1024 <=? Z.abs r then Infinity (n <? 0) else Int r.

(** [x + k] for an integer [k]. *)
Definition add (x : t) (k : Z) : t :=
  match x with
  | Int z => ofInteger (z + k)
  | _ => x
  end.

(** [Math.max(0, x)] *)
Definition max0 (x : t) : t :=
  match x with
  | NaN => NaN
  | Infinity true => Int 0
  | Infinity false => x
  | Int z => Int (Z.max 0 z)
  end.

Definition isNaN (x : t) : bool :=
  match x with NaN => true | _ => false end.

(** The binary64 with the value of [x]. *)
Definition toFloat (x : t) : spec_float :=
  match x with
  | NaN => S754_nan
  | Infinity negative => S754_infinity negative
  | Int z => binary_normalize 53 1024 z 0 false
  end.

(** [String(x)].  Up to [2^53] every integer is a binary64 and no shorter
    digit string names it, so that the text is the decimal numeral; above
    that the digits are the shortest that name the value. *)
Definition toString (x : t) : string :=
  match x with
  | Int z =>
      if Z.abs z <=? 2 ^ 53 then pretty z
      else BasicEngine.numberToString (toFloat x)
  | _ => BasicEngine.numberToString (toFloat x)
  end.

End Number.

(** [parseInt(s)] without a radix: leading white space is skipped, a sign is
    read, a [0x]/[0X] prefix selects base 16, and the longest run of digits of
    the base is read.  [mathInt] is the exact integer read ([None] when there
    is no digit); the result is its Number value, or [NaN]. *)
Module ParseInt.

Definition digitValue (radix : Z) (c : ascii) : option Z :=
  let n := Z.of_N (JS.code c) in
  let v := if (48 <=? n) && (n <=? 57) then Some (n - 48)
           else if (97 <=? n) && (n <=? 122) then Some (n - 87)
           else if (65 <=? n) && (n <=? 90) then Some (n - 55)
           else None in
  match v with
  | Some d => if d <? radix then Some d else None
  | None => None
  end.

(** Reads digits from the left; [acc] is [None] until a digit was read. *)
Fixpoint digits (radix : Z) (acc : option Z) (s : string) : option Z :=
  match s with
  | EmptyString => acc
  | String c s' =>
      match digitValue radix c with
      | Some d => digits radix (Some (radix * default 0 acc + d)) s'
      | None => acc
      end
  end.

Definition unsigned (s : string) : option Z :=
  if JS.startsWith s "0x" || JS.startsWith s "0X"
  then digits 16 None (JS.dropChars 2 s)
  else digits 10 None s.

Definition mathInt (s : string) : option Z :=
  match JS.trimStart s with
  | String c s' =>
      if Ascii.eqb c "-"%char then Z.opp <$> unsigned s'
      else if Ascii.eqb c "+"%char then unsigned s'
      else unsigned (String c s')
  | EmptyString => None
  end.

Definition parseInt (s : string) : Number.t :=
  match mathInt s with
  | Some n => Number.ofInteger n
  | None => Number.NaN
  end.

End ParseInt.

(** ** types.ts *)

Inductive ColumnType := TypeText | TypeNumber | TypeDate | TypeBoolean.

Module Column.
Record t := mk { id : string; label : string; type : ColumnType }.
End Column.

Inductive CellValue :=
| VString (s : string)
| VNumber (x : spec_float)
| VBoolean (b : bool)
| VNull.

(** [Cell]: an object from column ids to values. *)
Abbreviation Cell := (gmap string CellValue).

(** A position of the [rows] array: no element at all (a hole, which an
    assignment past the end leaves behind), the value [undefined] (what a
    copy [[...rows]] makes of a hole), or a row. *)
Inductive Slot := Hole | Undefined | Row (r : Cell).

Inductive Language := En | Ru.

Inductive ExpectedType := ExpectNumber | ExpectText.

Module WorkflowStep.
Record t := mk {
  id : string;
  instruction : string;
  targetRowIndex : Z;
  targetColumnId : string;
  expectedType : ExpectedType
}.
End WorkflowStep.

Module WorkflowPlan.
Record t := mk { steps : list WorkflowStep.t; description : string }.
End WorkflowPlan.

Module TableData.
Record t := mk {
  id : string;
  name : string;
  createdAt : Z;
  lastModified : Z;
  columns : list Column.t;
  rows : list Slot;
  workflowPlan : option WorkflowPlan.t
}.
End TableData.

Inductive Action := ActUpdate | ActAppend | ActDelete | ActUnknown.

Module RowUpdate.
(** [rowIndex]: 0-based index, or -1 for a new row. *)
Record t := mk { rowIndex : Z; updates : Cell }.
End RowUpdate.

Module VoiceUpdateResult.
Record t := mk { rowUpdates : list RowUpdate.t; action : Action; feedback : string }.
End VoiceUpdateResult.

(** ** components/WorkflowWizard.tsx *)

Module WorkflowWizard.

(** The component state.  [selectedIndices] is a [Set<number>], kept in
    insertion order without repetition. *)
Record State := mkState {
  plan : option WorkflowPlan.t;
  editingStepId : option string;
  editInstruction : string;
  editRowIndex : string;
  editColumnId : string;
  draggedIdx : option nat;
  selectedIndices : list nat
}.

Definition setPlan (p : WorkflowPlan.t) (st : State) : State :=
  mkState (Some p) (editingStepId st) (editInstruction st) (editRowIndex st)
          (editColumnId st) (draggedIdx st) (selectedIndices st).

Definition setSelectedIndices (sel : list nat) (st : State) : State :=
  mkState (plan st) (editingStepId st) (editInstruction st) (editRowIndex st)
          (editColumnId st) (draggedIdx st) sel.

Definition setDraggedIdx (d : option nat) (st : State) : State :=
  mkState (plan st) (editingStepId st) (editInstruction st) (editRowIndex st)
          (editColumnId st) d (selectedIndices st).

Definition setEditingStepId (e : option string) (st : State) : State :=
  mkState (plan st) e (editInstruction st) (editRowIndex st)
          (editColumnId st) (draggedIdx st) (selectedIndices st).

Definition withSteps (p : WorkflowPlan.t) (newSteps : list WorkflowStep.t) : WorkflowPlan.t :=
  WorkflowPlan.mk newSteps (WorkflowPlan.description p).

(** [arr.filter((_, i) => keep i)], the first element having index [i0]. *)
Fixpoint filterIndexFrom {A} (keep : nat → bool) (i0 : nat) (arr : list A) : list A :=
  match arr with
  | [] => []
  | x :: xs =>
      if keep i0 then x :: filterIndexFrom keep (S i0) xs
      else filterIndexFrom keep (S i0) xs
  end.

Definition filterIndex {A} (keep : nat → bool) (arr : list A) : list A :=
  filterIndexFrom keep 0%nat arr.

Definition deleteStep (index : nat) (st : State) : State :=
  match plan st with
  | None => st
  | Some p =>
      let newSteps := filterIndex (λ i, negb (i =? index)%nat) (WorkflowPlan.steps p) in
      setSelectedIndices [] (setPlan (withSteps p newSteps) st)
  end.

(** [isNaN(parsedRow) ? 0 : Math.max(0, parsedRow - 1)]: the row number
    typed by the editor (1-based) to the stored 0-based index. *)
Definition rowIndexOfInput (editRowIndex : string) : Number.t :=
  let parsedRow := ParseInt.parseInt editRowIndex in
  if Number.isNaN parsedRow then Number.Int 0
  else Number.max0 (Number.add parsedRow (-1)).

(** [String(step.targetRowIndex + 1)]: the row as it is shown, 1-based. *)
Definition rowShown (targetRowIndex : Z) : string :=
  Number.toString (Number.add (Number.Int targetRowIndex) 1).

(** [startEditing]; [now] is [Date.now()], read when the step has no id. *)
Definition startEditing (step : WorkflowStep.t) (idx : nat) (now : Z) (st : State)
    : State :=
  let id :=
    if String.eqb (WorkflowStep.id step) ""
    then "step_" +:+ pretty idx +:+ "_" +:+ pretty now
    else WorkflowStep.id step in
  mkState (plan st) (Some id) (WorkflowStep.instruction step)
          (rowShown (WorkflowStep.targetRowIndex step))
          (WorkflowStep.targetColumnId step) (draggedIdx st) (selectedIndices st).

Definition setEditInstruction (value : string) (st : State) : State :=
  mkState (plan st) (editingStepId st) value (editRowIndex st)
          (editColumnId st) (draggedIdx st) (selectedIndices st).

Definition setEditRowIndex (value : string) (st : State) : State :=
  mkState (plan st) (editingStepId st) (editInstruction st) value
          (editColumnId st) (draggedIdx st) (selectedIndices st).

Definition setEditColumnId (value : string) (st : State) : State :=
  mkState (plan st) (editingStepId st) (editInstruction st) (editRowIndex st)
          value (draggedIdx st) (selectedIndices st).

(** [saveStepEdit].  The handler is attached to a rendered step, so [index]
    is in range; out of range the array would receive an object lacking
    [id] and [expectedType].  [None]: the new state leaves the types of this
    development, by such an object or by the row index [Infinity], which a
    text of more than 308 digits gives. *)
Definition saveStepEdit (index : nat) (st : State) : option State :=
  match plan st with
  | None => Some st
  | Some p =>
      let newSteps := WorkflowPlan.steps p in
      match rowIndexOfInput (editRowIndex st), newSteps !! index with
      | Number.Int targetRowIndex, Some old =>
          let edited :=
            WorkflowStep.mk (WorkflowStep.id old) (editInstruction st) targetRowIndex
                            (editColumnId st) (WorkflowStep.expectedType old) in
          Some (setEditingStepId None
                  (setPlan (withSteps p (<[index := edited]> newSteps)) st))
      | _, _ => None
      end
  end.

(** [addNewStep]; [now] is the value of [Date.now()]. *)
Definition addNewStep (language : Language) (table : TableData.t) (now : Z)
    (st : State) : State :=
  match plan st with
  | None => st
  | Some p =>
      let steps := WorkflowPlan.steps p in
      let defaultRow :=
        match last steps with
        | Some lastStep => WorkflowStep.targetRowIndex lastStep
        | None => 0
        end in
      let newStep :=
        WorkflowStep.mk ("manual_" +:+ pretty now)
          (match language with Ru => "Новый шаг" | En => "New Step" end)
          defaultRow
          (match TableData.columns table with
           | c :: _ => if String.eqb (Column.id c) "" then "col_0" else Column.id c
           | [] => "col_0"
           end)
          ExpectText in
      setPlan (withSteps p (steps ++ [newStep])) st
  end.

Definition has (sel : list nat) (index : nat) : bool :=
  existsb (λ i, (i =? index)%nat) sel.

Definition toggleSelection (index : nat) (st : State) : State :=
  let newSet :=
    if has (selectedIndices st) index
    then List.filter (λ i, negb (i =? index)%nat) (selectedIndices st)
    else selectedIndices st ++ [index] in
  setSelectedIndices newSet st.

(** [Math.min(r, ...rs)] and [Math.max(r, ...rs)] on a non-empty list. *)
Definition mathMin (r : Z) (rs : list Z) : Z := foldl Z.min r rs.
Definition mathMax (r : Z) (rs : list Z) : Z := foldl Z.max r rs.

(** [(maxRow - minRow) + 1 || 1] *)
Definition smartOffset (minRow maxRow : Z) : Z :=
  let o := (maxRow - minRow) + 1 in
  if o =? 0 then 1 else o.

(** [Array.from(selectedIndices).sort((a, b) => a - b)] *)
Definition sortIndices (sel : list nat) : list nat := merge_sort le sel.

(** The new [steps] array of [duplicateSelected].  [newId k] is the text
    [copy_${Date.now()}_${Math.random()}] produced for the [k]-th copy.
    Reading [targetRowIndex] of a missing step throws: [None]. *)
Definition duplicateSteps (newId : nat → string) (steps : list WorkflowStep.t)
    (sel : list nat) : option (list WorkflowStep.t) :=
  let indices := sortIndices sel in
  selectedSteps ← mapM (λ i, steps !! i) indices;
  let rows := map WorkflowStep.targetRowIndex selectedSteps in
  match rows with
  | [] => Some steps
  | r :: rs =>
      let minRow := mathMin r rs in
      let maxRow := mathMax r rs in
      let offset := smartOffset minRow maxRow in
      let newSteps :=
        imap (λ k step,
                WorkflowStep.mk (newId k) (WorkflowStep.instruction step)
                  (WorkflowStep.targetRowIndex step + offset)
                  (WorkflowStep.targetColumnId step)
                  (WorkflowStep.expectedType step))
             selectedSteps in
      Some (steps ++ newSteps)
  end.

Definition duplicateSelected (newId : nat → string) (st : State) : option State :=
  match plan st, selectedIndices st with
  | None, _ => Some st
  | Some _, [] => Some st
  | Some p, sel =>
      newSteps ← duplicateSteps newId (WorkflowPlan.steps p) sel;
      Some (setSelectedIndices [] (setPlan (withSteps p newSteps) st))
  end.

Definition deleteSelected (st : State) : State :=
  match plan st, selectedIndices st with
  | None, _ => st
  | Some _, [] => st
  | Some p, sel =>
      let newSteps := filterIndex (λ i, negb (has sel i)) (WorkflowPlan.steps p) in
      setSelectedIndices [] (setPlan (withSteps p newSteps) st)
  end.

Definition onDragStart (index : nat) (st : State) : State :=
  setDraggedIdx (Some index) st.

(** [arr.splice(start, 0, item)]: the insertion point is clamped to the
    length. *)
Definition spliceInsert {A} (start : nat) (item : A) (arr : list A) : list A :=
  take start arr ++ item :: drop start arr.

(** The two [splice] calls of [onDrop]: the step at [fromIndex] is taken
    out, then put back at [toIndex].  With [fromIndex] out of range the
    moved item is [undefined] and the array leaves the type: [None]. *)
Definition reorderStep (steps : list WorkflowStep.t) (fromIndex toIndex : nat)
    : option (list WorkflowStep.t) :=
  match steps !! fromIndex with
  | Some movedItem => Some (spliceInsert toIndex movedItem (delete fromIndex steps))
  | None => None
  end.

Definition onDrop (dropIndex : nat) (st : State) : option State :=
  match plan st, draggedIdx st with
  | Some p, Some from =>
      newSteps ← reorderStep (WorkflowPlan.steps p) from dropIndex;
      Some (setDraggedIdx None (setPlan (withSteps p newSteps) st))
  | _, _ => Some st
  end.

End WorkflowWizard.

(** ** components/GuidedSession.tsx *)

Module GuidedSession.

Record State := mkState {
  currentStepIndex : nat;
  isListening : bool;
  transcript : string
}.

(** What a handler asks of its surroundings: the [log], [onValueReceived]
    and [onClose] props, and [alert].  [OnClose] ends the session: the
    parent unmounts the component. *)
Inductive Effect :=
| Log (msg : string)
| OnValueReceived (rowIndex : Z) (colId : string) (value : string)
| Alert (msg : string)
| OnClose.

Definition stopWords (language : Language) : list string :=
  match language with
  | Ru => ["стоп"; "выход"; "хватит"]
  | En => ["stop"; "exit"]
  end.

Definition nextWords (language : Language) : list string :=
  match language with
  | Ru => ["дальше"; "пропустить"; "скип"]
  | En => ["skip"; "next"]
  end.

Definition currentStep (plan : WorkflowPlan.t) (st : State) : option WorkflowStep.t :=
  WorkflowPlan.steps plan !! currentStepIndex st.

Definition nextStep (language : Language) (plan : WorkflowPlan.t) (st : State)
    : State * list Effect :=
  if Z.of_nat (currentStepIndex st) <? Z.of_nat (length (WorkflowPlan.steps plan)) - 1
  then (mkState (S (currentStepIndex st)) (isListening st) "", [])
  else (st, [Alert (match language with
                    | Ru => "Маршрут завершен!"
                    | En => "Workflow Complete!"
                    end);
             OnClose]).

Definition userSaid (cleanText : string) : string :=
  "User said: " +:+ String JS.dquote (cleanText +:+ String JS.dquote "").

(** The value captured from a cleaned utterance for a step. *)
Definition captureValue (expected : ExpectedType) (cleanText : string) : string :=
  match expected with
  | ExpectNumber =>
      let norm := JS.replace cleanText "," "." in
      match JS.matchNumber norm with
      | Some m => m
      | None => cleanText
      end
  | ExpectText => cleanText
  end.

(** [handleResult].  [None]: reading [expectedType] of a missing current
    step throws (a plan without steps). *)
Definition handleResult `{Engine} (language : Language) (plan : WorkflowPlan.t)
    (st : State) (text : string) : option (State * list Effect) :=
  let cleanText := toLowerCase (JS.trim text) in
  if String.eqb cleanText "" then Some (st, [])
  else
    let said := Log (userSaid cleanText) in
    if existsb (λ w, JS.includes cleanText w) (stopWords language)
    then Some (st, [said; OnClose])
    else if existsb (λ w, JS.includes cleanText w) (nextWords language)
    then let '(st', effs) := nextStep language plan st in Some (st', said :: effs)
    else
      step ← currentStep plan st;
      let value := captureValue (WorkflowStep.expectedType step) cleanText in
      let '(st', effs) := nextStep language plan st in
      Some (st', said
                 :: OnValueReceived (WorkflowStep.targetRowIndex step)
                                    (WorkflowStep.targetColumnId step) value
                 :: effs).

Definition isWrite (e : Effect) : bool :=
  match e with OnValueReceived _ _ _ => true | _ => false end.

Definition isClose (e : Effect) : bool :=
  match e with OnClose => true | _ => false end.

End GuidedSession.

(** ** App.tsx *)

Module App.

Record State := mkState {
  currentTable : option TableData.t;
  feedback : option string;
  (** the tables handed to [saveTable], oldest first *)
  saved : list TableData.t
}.

Definition withRows (t : TableData.t) (newRows : list Slot) (now : Z)
    : TableData.t :=
  TableData.mk (TableData.id t) (TableData.name t) (TableData.createdAt t) now
               (TableData.columns t) newRows (TableData.workflowPlan t).

(** [[...rows]]: the copy has an element at every position; a hole is read
    as [undefined]. *)
Definition copyRows (rows : list Slot) : list Slot :=
  map (λ s, match s with Hole => Undefined | _ => s end) rows.

(** [{ ...row }] where [row] may be [undefined]. *)
Definition spread (row : option Slot) : Cell :=
  match row with
  | Some (Row r) => r
  | _ => ∅
  end.

(** [arr[i] = v] on an array of objects: past the end the array grows and
    the skipped positions are holes. *)
Definition arraySet (i : nat) (v : Cell) (arr : list Slot) : list Slot :=
  if decide (i < length arr)%nat then <[i := Row v]> arr
  else arr ++ replicate (i - length arr) Hole ++ [Row v].

(** The body of the [forEach] in [handleVoiceUpdate]. *)
Definition applyRowUpdate (action : Action) (newRows : list Slot)
    (update : RowUpdate.t) : list Slot :=
  let rowIndex := RowUpdate.rowIndex update in
  if (rowIndex =? -1) || (match action with ActAppend => true | _ => false end)
  then newRows ++ [Row (RowUpdate.updates update)]
  else if (0 <=? rowIndex) && (rowIndex <? Z.of_nat (length newRows))
  then <[Z.to_nat rowIndex :=
           Row (RowUpdate.updates update ∪ spread (newRows !! Z.to_nat rowIndex))]> newRows
  else newRows.

(** [result.rowUpdates.forEach(...)] on the array [newRows]. *)
Definition applyRowUpdates (result : VoiceUpdateResult.t) (newRows : list Slot)
    : list Slot :=
  foldl (applyRowUpdate (VoiceUpdateResult.action result)) newRows
        (VoiceUpdateResult.rowUpdates result).

Definition handleVoiceUpdate (now : Z) (result : VoiceUpdateResult.t) (st : State)
    : State :=
  match currentTable st with
  | None => st
  | Some table =>
      let newRows := applyRowUpdates result (copyRows (TableData.rows table)) in
      let updatedTable := withRows table newRows now in
      mkState (Some updatedTable) (Some (VoiceUpdateResult.feedback result))
              (saved st ++ [updatedTable])
  end.

(** [currentTable.columns.forEach(c => newRow[c.id] = "")] from [{}] *)
Definition emptyRow (columns : list Column.t) : Cell :=
  foldl (λ newRow c, <[Column.id c := VString ""]> newRow) ∅ columns.

(** The rows computed by [handleGuidedValue], from the copy of the rows.  A
    negative [rowIndex] names a property of the copy that is not an element:
    the elements, which are all that the length, the next copy and the
    render read, stay as in the copy. *)
Definition guidedRows (columns : list Column.t) (rows : list Slot)
    (rowIndex : Z) (colId val : string) : list Slot :=
  let newRows := copyRows rows in
  if rowIndex <? 0 then newRows
  else
    let i := Z.to_nat rowIndex in
    let newRows1 :=
      match newRows !! i with
      | Some (Row _) => newRows
      | _ => arraySet i (emptyRow columns) newRows
      end in
    arraySet i (<[colId := VString val]> (spread (newRows1 !! i))) newRows1.

(** [handleGuidedValue]; [now1] and [now2] are the two readings of
    [Date.now()]. *)
Definition handleGuidedValue (now1 now2 : Z) (rowIndex : Z) (colId val : string)
    (st : State) : State :=
  match currentTable st with
  | None => st
  | Some table =>
      let newRows :=
        guidedRows (TableData.columns table) (TableData.rows table) rowIndex colId val in
      mkState (Some (withRows table newRows now1)) (feedback st)
              (saved st ++ [withRows table newRows now2])
  end.

(** The rows computed by [handleManualCellChange]; [rowIndex] is the index of
    a rendered row. *)
Definition manualRows (rows : list Slot) (rowIndex : nat)
    (colId val : string) : list Slot :=
  let newRows := copyRows rows in
  arraySet rowIndex (<[colId := VString val]> (spread (newRows !! rowIndex))) newRows.

(** [handleManualCellChange]; [now1] and [now2] are the two readings of
    [Date.now()]. *)
Definition handleManualCellChange (now1 now2 : Z) (rowIndex : nat)
    (colId val : string) (st : State) : State :=
  match currentTable st with
  | None => st
  | Some table =>
      let newRows := manualRows (TableData.rows table) rowIndex colId val in
      mkState (Some (withRows table newRows now1)) (feedback st)
              (saved st ++ [withRows table newRows now2])
  end.

(** The add-row button under the table: the new row maps every column id to
    the empty text; nothing is saved and [lastModified] stays. *)
Definition addRowClick (st : State) : State :=
  match currentTable st with
  | None => st
  | Some table =>
      mkState
        (Some (TableData.mk (TableData.id table) (TableData.name table)
                 (TableData.createdAt table) (TableData.lastModified table)
                 (TableData.columns table)
                 (copyRows (TableData.rows table)
                    ++ [Row (emptyRow (TableData.columns table))])
                 (TableData.workflowPlan table)))
        (feedback st) (saved st)
  end.

(** The [onSave] handler given to the column settings: the columns are
    replaced, the rows are left as they are, and the table is saved. *)
Definition saveColumns (cols : list Column.t) (st : State) : State :=
  match currentTable st with
  | None => st
  | Some table =>
      let updated :=
        TableData.mk (TableData.id table) (TableData.name table)
          (TableData.createdAt table) (TableData.lastModified table)
          cols (TableData.rows table) (TableData.workflowPlan table) in
      mkState (Some updated) (feedback st) (saved st ++ [updated])
  end.

(** One row of the table body in the render.  [rows.map] calls its function
    on the elements and skips the holes; the function reads [row[col.id]]
    for every column, which throws when the row is [undefined]. *)
Definition rendersRow (columns : list Column.t) (row : Slot) : bool :=
  match row, columns with
  | Undefined, _ :: _ => false
  | _, _ => true
  end.

(** The render of the table after a state change: [false] when it throws. *)
Definition renders (st : State) : bool :=
  match currentTable st with
  | None => true
  | Some table => forallb (rendersRow (TableData.columns table)) (TableData.rows table)
  end.

End App.

(** ** services/fileService.ts *)

Module FileService.

(** [v.trim().replace(/^Q|Q$/g, '')], Q the double quote *)
Definition cleanField (v : string) : string := JS.stripQuotes (JS.trim v).

Definition fields (line : string) : list string :=
  map cleanField (JS.splitChar line ",").

(** [!isNaN(numVal) && isFinite(numVal) && String(numVal) === val] *)
Definition isCanonicalNumber `{Engine} (val : string) : bool :=
  let numVal := parseFloat val in
  negb (isNaN numVal) && isFinite numVal && String.eqb (numberToString numVal) val.

Definition initialColumns (headers : list string) : list Column.t :=
  imap (λ idx h,
          Column.mk ("col_" +:+ pretty idx)
                    (if String.eqb h "" then "Column " +:+ pretty (idx + 1)%nat else h)
                    TypeText)
       headers.

(** [if (col.type === 'text') col.type = 'number'] *)
Definition upgrade (col : Column.t) : Column.t :=
  match Column.type col with
  | TypeText => Column.mk (Column.id col) (Column.label col) TypeNumber
  | _ => col
  end.

(** [columns.forEach((col, idx) => ...)] for one line, from column [idx] on:
    the row under construction and the columns, whose types the loop
    body updates in place. *)
Fixpoint parseCells `{Engine} (values : list string) (idx : nat)
    (cols : list Column.t) (row : Cell) : Cell * list Column.t :=
  match cols with
  | [] => (row, [])
  | col :: rest =>
      let val := default "" (values !! idx) in
      if isCanonicalNumber val
      then
        let '(row', rest') :=
          parseCells values (S idx) rest (<[Column.id col := VNumber (parseFloat val)]> row) in
        (row', upgrade col :: rest')
      else
        let '(row', rest') :=
          parseCells values (S idx) rest (<[Column.id col := VString val]> row) in
        (row', col :: rest')
  end.

(** [lines.slice(1).map(line => ...)], threading the columns. *)
Fixpoint parseRows `{Engine} (lines : list string) (cols : list Column.t)
    : list Cell * list Column.t :=
  match lines with
  | [] => ([], cols)
  | line :: more =>
      let '(row, cols1) := parseCells (fields line) 0 cols ∅ in
      let '(rows, cols2) := parseRows more cols1 in
      (row :: rows, cols2)
  end.

Definition nonBlankLines (content : string) : list string :=
  List.filter (λ line, negb (String.eqb (JS.trim line) "")) (JS.splitLines content).

(** [parseCSV]; [uuid] is [crypto.randomUUID()], [now1] and [now2] the two
    readings of [Date.now()].  [None]: the error [Empty file] is thrown. *)
Definition parseCSV `{Engine} (uuid : string) (now1 now2 : Z)
    (content fileName : string) : option TableData.t :=
  match nonBlankLines content with
  | [] => None
  | header :: body =>
      let columns := initialColumns (fields header) in
      let '(rows, columns') := parseRows body columns in
      let stem := default "" (head (JS.splitChar fileName ".")) in
      Some (TableData.mk uuid
              (if String.eqb stem "" then "Imported CSV" else stem)
              now1 now2 columns' (map Row rows) None)
  end.

End FileService.

(** ** services/geminiService.ts

    The translation of the parsed model response, which follows the
    response schema: the items of [cells] and of [fields] carry a
    [columnId] and a [value], both strings; an array that is missing or is
    not an array is [None]. *)

Module GeminiService.

Record CellJson := mkCellJson { columnId : string; value : string }.


Record RowUpdateJson := mkRowUpdateJson {
  rowIndex : Z;
  fields : option (list CellJson)
}.

(** The body of [data.rowUpdates.map] in [parseVoiceCommand]. *)
Definition rowUpdateOfJson (u : RowUpdateJson) : RowUpdate.t :=
  let updatesMap :=
    match fields u with
    | Some fs => foldl (λ m f, <[columnId f := VString (value f)]> m) ∅ fs
    | None => ∅
    end in
  RowUpdate.mk (rowIndex u) updatesMap.

(** The [VoiceUpdateResult] built by [parseVoiceCommand]. *)
Definition voiceResultOfJson (action : Action) (feedback : string)
    (rowUpdates : list RowUpdateJson) : VoiceUpdateResult.t :=
  VoiceUpdateResult.mk (map rowUpdateOfJson rowUpdates) action feedback.

End GeminiService.

(** ** components/ColumnSettings.tsx *)

Module ColumnSettings.

(** [keyof Column] *)
Inductive Field := FieldId | FieldLabel | FieldType.

(** The values of the type selector. *)
Definition typeOfText (value : string) : option ColumnType :=
  if String.eqb value "text" then Some TypeText
  else if String.eqb value "number" then Some TypeNumber
  else if String.eqb value "date" then Some TypeDate
  else if String.eqb value "boolean" then Some TypeBoolean
  else None.

(** [handleChange].  [None]: the array would receive a value that is not a
    [Column] (an index that is not rendered, or a type text that is not one
    of the four options). *)
Definition handleChange (index : nat) (field : Field) (value : string)
    (columns : list Column.t) : option (list Column.t) :=
  col ← columns !! index;
  edited ←
    match field with
    | FieldId => Some (Column.mk value (Column.label col) (Column.type col))
    | FieldLabel => Some (Column.mk (Column.id col) value (Column.type col))
    | FieldType => Column.mk (Column.id col) (Column.label col) <$> typeOfText value
    end;
  Some (<[index := edited]> columns).

Definition handleDelete (index : nat) (columns : list Column.t) : list Column.t :=
  WorkflowWizard.filterIndex (λ i, negb (i =? index)%nat) columns.

(** [handleAdd]; [now] is [Date.now()]. *)
Definition handleAdd (now : Z) (columns : list Column.t) : list Column.t :=
  columns ++ [Column.mk ("col_" +:+ pretty now) "New Column" TypeText].

End ColumnSettings.

(** ** Vocabulary of the specification *)


(** The text has a decimal digit somewhere. *)
Definition hasDigit (s : string) : bool :=
  existsb JS.isDigit (list_ascii_of_string s).


(** Following the words of the specification: every comma is replaced by a
    period, then the first signed-decimal substring is taken. *)
Definition specNumberValue (cleanText : string) : option string :=
  JS.matchNumber (JS.replaceAllChar cleanText "," ".").

(** The text found in column [idx] of a data line: the value at [idx], or
    the empty text when there is none. *)
Definition cellText (line : string) (idx : nat) : string :=
  default "" (FileService.fields line !! idx).

Definition newline : string := String (ascii_of_N 10) "".

(** A file whose only column holds a number and then a word. *)
Definition mixedCsv : string :=
  "qty" +:+ newline +:+ "1" +:+ newline +:+ "abc".

Definition allDigits (s : string) : bool :=
  forallb JS.isDigit (list_ascii_of_string s).

Definition commaCount (s : string) : nat :=
  length (List.filter (λ c, Ascii.eqb c ",") (list_ascii_of_string s)).

(** A plan and a session state used to run the handlers. *)
Definition quantityPlan : WorkflowPlan.t :=
  WorkflowPlan.mk
    [WorkflowStep.mk "s0" "Quantity, row one" 0 "c0" ExpectNumber;
     WorkflowStep.mk "s1" "Quantity, row two" 1 "c0" ExpectNumber;
     WorkflowStep.mk "s2" "Comment" 1 "c1" ExpectText]
    "Column by column".

Definition sessionStart : GuidedSession.State := GuidedSession.mkState 0 false "".

(** The user actions on the pipeline editor.  [EvGenerate] is a successful
    [handleGenerate]; the three [EvEdit...] are the change events of the edit
    fields, carrying the new text of the field ([setEditInstruction],
    [setEditColumnId], [setEditRowIndex]). *)
Inductive WizardEvent :=
| EvGenerate (generatedPlan : WorkflowPlan.t)
| EvDeleteStep (index : nat)
| EvStartEditing (index : nat) (now : Z)
| EvEditInstruction (value : string)
| EvEditColumnId (value : string)
| EvEditRowIndex (value : string)
| EvSaveStepEdit (index : nat)
| EvAddNewStep (now : Z)
| EvToggleSelection (index : nat)
| EvDuplicateSelected (newId : nat → string)
| EvDeleteSelected
| EvDragStart (index : nat)
| EvDrop (dropIndex : nat).

Definition handleWizardEvent (language : Language) (table : TableData.t)
    (e : WizardEvent) (st : WorkflowWizard.State) : option WorkflowWizard.State :=
  match e with
  | EvGenerate generatedPlan =>
      Some (WorkflowWizard.setSelectedIndices []
              (WorkflowWizard.setPlan generatedPlan st))
  | EvDeleteStep index => Some (WorkflowWizard.deleteStep index st)
  | EvStartEditing index now =>
      p ← WorkflowWizard.plan st;
      step ← WorkflowPlan.steps p !! index;
      Some (WorkflowWizard.startEditing step index now st)
  | EvEditInstruction value => Some (WorkflowWizard.setEditInstruction value st)
  | EvEditColumnId value => Some (WorkflowWizard.setEditColumnId value st)
  | EvEditRowIndex value => Some (WorkflowWizard.setEditRowIndex value st)
  | EvSaveStepEdit index => WorkflowWizard.saveStepEdit index st
  | EvAddNewStep now => Some (WorkflowWizard.addNewStep language table now st)
  | EvToggleSelection index => Some (WorkflowWizard.toggleSelection index st)
  | EvDuplicateSelected newId => WorkflowWizard.duplicateSelected newId st
  | EvDeleteSelected => Some (WorkflowWizard.deleteSelected st)
  | EvDragStart index => Some (WorkflowWizard.onDragStart index st)
  | EvDrop dropIndex => WorkflowWizard.onDrop dropIndex st
  end.

(** The step at [index] is on screen: handlers that take an index are
    attached to the rendered steps only. *)
Definition rendered (st : WorkflowWizard.State) (index : nat) : Prop :=
  ∃ p, WorkflowWizard.plan st = Some p
       ∧ (index < length (WorkflowPlan.steps p))%nat.

(** The step at [index] is shown with its edit fields:
    [editingStepId === (step.id || `step_${idx}`)]. *)
Definition isEditing (st : WorkflowWizard.State) (index : nat) : Prop :=
  ∃ p step,
    WorkflowWizard.plan st = Some p
    ∧ WorkflowPlan.steps p !! index = Some step
    ∧ WorkflowWizard.editingStepId st
      = Some (if String.eqb (WorkflowStep.id step) "" then "step_" +:+ pretty index
              else WorkflowStep.id step).

(** The edit fields and the save button exist for a step that is being
    edited; the other controls exist for every step. *)
Definition eventOnScreen (e : WizardEvent) (st : WorkflowWizard.State) : Prop :=
  match e with
  | EvDeleteStep index | EvStartEditing index _ | EvToggleSelection index
  | EvDragStart index | EvDrop index => rendered st index
  | EvSaveStepEdit index => isEditing st index
  | EvEditInstruction _ | EvEditColumnId _ | EvEditRowIndex _ =>
      ∃ index, isEditing st index
  | _ => True
  end.


(** The selection is a set of positions of existing steps. *)
Definition selectionValid (st : WorkflowWizard.State) : Prop :=
  NoDup (WorkflowWizard.selectedIndices st)
  ∧ Forall (rendered st) (WorkflowWizard.selectedIndices st).

(** A numeral as the pattern of the session describes it: an optional minus
    sign, one or more digits, and optionally a period followed by one or
    more digits. *)
Definition isUnsignedNumeral (m : string) : bool :=
  match JS.spanDigits m with
  | (EmptyString, _) => false
  | (_, EmptyString) => true
  | (_, String dot f) =>
      Ascii.eqb dot "." && allDigits f && negb (String.eqb f "")
  end.

Definition isNumeral (m : string) : bool :=
  match m with
  | String a m' =>
      if Ascii.eqb a "-" then isUnsignedNumeral m' else isUnsignedNumeral m
  | EmptyString => false
  end.

(** The entries of a batch that add a row. *)
Definition addsRow (action : Action) (u : RowUpdate.t) : bool :=
  (RowUpdate.rowIndex u =? -1) || (match action with ActAppend => true | _ => false end).


(** The row a write to position [i] starts from: the row found there, or a
    fresh row with every column set to the empty text. *)
Definition baseRow (columns : list Column.t) (rows : list Slot) (i : nat)
    : Cell :=
  match rows !! i with
  | Some (Row r) => r
  | _ => App.emptyRow columns
  end.

(** The value stored for the text of a CSV field: the number when the text
    is a canonical number, the text itself otherwise. *)
Definition cellValueOf `{Engine} (val : string) : CellValue :=
  if FileService.isCanonicalNumber val then VNumber (parseFloat val) else VString val.

Definition columnIdAt (idx : nat) : string := "col_" +:+ pretty idx.

(** The states the editor can be in: it opens on the plan stored with the
    table, with nothing selected and no step being edited, and changes by
    actions on what is on screen. *)
Definition wizardOpens (table : TableData.t) : WorkflowWizard.State :=
  WorkflowWizard.mkState (TableData.workflowPlan table) None "" "" "" None [].

Inductive wizardReaches (language : Language) (table : TableData.t)
    : WorkflowWizard.State → Prop :=
| reaches_open : wizardReaches language table (wizardOpens table)
| reaches_step st e st' :
    wizardReaches language table st →
    eventOnScreen e st →
    handleWizardEvent language table e st = Some st' →
    wizardReaches language table st'.

(** The session wired to the table as [App.tsx] renders it:
    [onValueReceived] is [handleGuidedValue], [onClose] unmounts the session.
    [runSession] feeds final transcripts one after the other: each is handled,
    the application is rendered with the new table, and the run stops at the
    first [OnClose]; the flag tells whether the session was closed.  [None]:
    the handler or the render that follows it throws. *)
Definition deliver (now : Z) (app : App.State) (e : GuidedSession.Effect) : App.State :=
  match e with
  | GuidedSession.OnValueReceived rowIndex colId value =>
      App.handleGuidedValue now now rowIndex colId value app
  | _ => app
  end.

Fixpoint runSession `{Engine} (language : Language) (plan : WorkflowPlan.t) (now : Z)
    (st : GuidedSession.State) (app : App.State) (texts : list string)
    : option (bool * GuidedSession.State * App.State) :=
  match texts with
  | [] => Some (false, st, app)
  | text :: more =>
      '(st', effs) ← GuidedSession.handleResult language plan st text;
      let app' := foldl (deliver now) app effs in
      if App.renders app' then
        if existsb GuidedSession.isClose effs then Some (true, st', app')
        else runSession language plan now st' app' more
      else None
  end.

(** Every position of the rows holds a row. *)
Definition isRow (s : Slot) : Prop := ∃ r, s = Row r.

(** The plan fits the table: the table has a row at every position, and no
    step targets a row past the first free position. *)
Definition planFits (plan : WorkflowPlan.t) (app : App.State) : Prop :=
  ∀ table,
    App.currentTable app = Some table →
    Forall isRow (TableData.rows table)
    ∧ Forall (λ step, WorkflowStep.targetRowIndex step
                      ≤ Z.of_nat (length (TableData.rows table)))
             (WorkflowPlan.steps plan).

(** The utterance holds a stop word of the language. *)
Definition saidStop `{Engine} (language : Language) (text : string) : bool :=
  existsb (λ w, JS.includes (toLowerCase (JS.trim text)) w)
          (GuidedSession.stopWords language).

(** The number of transcripts that are not empty after trimming. *)
Definition spoken `{Engine} (texts : list string) : nat :=
  length (List.filter (λ text, negb (String.eqb (toLowerCase (JS.trim text)) "")) texts).

(** A write asked of the application targets the row of a step of the
    plan. *)
Definition targetsPlan (plan : WorkflowPlan.t) (e : GuidedSession.Effect) : Prop :=
  match e with
  | GuidedSession.OnValueReceived rowIndex _ _ =>
      ∃ step, step ∈ WorkflowPlan.steps plan ∧ WorkflowStep.targetRowIndex step = rowIndex
  | _ => True
  end.

(** The scenario of the specification: one numeric column, no rows, two
    steps. *)
Definition qtyTable : TableData.t :=
  TableData.mk "t0" "Quantities" 0 0 [Column.mk "c0" "Qty" TypeNumber] [] None.

Definition qtyPlan : WorkflowPlan.t :=
  WorkflowPlan.mk
    [WorkflowStep.mk "s0" "Quantity one" 0 "c0" ExpectNumber;
     WorkflowStep.mk "s1" "Quantity two" 1 "c0" ExpectNumber]
    "Top to bottom".

(** A plan whose first step lies beyond the first free row of [qtyTable]. *)
Definition skippingPlan : WorkflowPlan.t :=
  WorkflowPlan.mk
    [WorkflowStep.mk "s0" "Quantity four" 3 "c0" ExpectNumber;
     WorkflowStep.mk "s1" "Quantity two" 1 "c0" ExpectNumber;
     WorkflowStep.mk "s2" "Quantity one" 0 "c0" ExpectNumber]
    "Bottom to top".

(** Sample data. *)
Definition threeLineCsv : string :=
  "qty, note" +:+ newline +:+ "1" +:+ newline +:+ newline +:+ "x,y,z".

Definition blockPlan : WorkflowPlan.t :=
  WorkflowPlan.mk
    [WorkflowStep.mk "a" "Anode, row four" 3 "c0" ExpectNumber;
     WorkflowStep.mk "b" "Blooms, row five" 4 "c1" ExpectNumber;
     WorkflowStep.mk "c" "Anode, row eight" 7 "c0" ExpectNumber;
     WorkflowStep.mk "d" "Note" 4 "c2" ExpectText]
    "Row by row".

Definition blockWizard : WorkflowWizard.State :=
  WorkflowWizard.mkState (Some blockPlan) (Some "b") "Blooms" "1" "c1" None [2%nat; 0%nat].

Definition blockTable : TableData.t :=
  TableData.mk "t2" "Blocks" 0 0
    [Column.mk "c0" "Anode" TypeNumber; Column.mk "c1" "Blooms" TypeNumber;
     Column.mk "c2" "Note" TypeText]
    [] (Some blockPlan).

Definition copyId (k : nat) : string := "copy_" +:+ pretty k.

Definition stockColumns : list Column.t :=
  [Column.mk "c0" "Qty" TypeNumber; Column.mk "c1" "Note" TypeText].

Definition stockTable : TableData.t :=
  TableData.mk "t1" "Stock" 100 100 stockColumns
    [Row {[ "c0" := VString "5"; "c1" := VString "ok" ]}] None.

Definition stockApp : App.State := App.mkState (Some stockTable) None [].

Definition noteUpdate (rowIndex : Z) : RowUpdate.t :=
  RowUpdate.mk rowIndex {[ "c1" := VString "late" ]}.

(** ** Properties of the pipeline editor *)

Section Wizard.
Import WorkflowWizard.





Lemma sortIndices_perm sel : sortIndices sel ≡ₚ sel.
Proof. apply merge_sort_Permutation. Qed.


Lemma spliceInsert_lookup {A} (l : list A) (j : nat) (x : A) :
  (j ≤ length l)%nat → spliceInsert j x l !! j = Some x.
Proof.
  intros Hj. unfold spliceInsert.
  rewrite lookup_app_r; rewrite length_take, Nat.min_l by lia; [|lia].
  by rewrite Nat.sub_diag.
Qed.

Lemma delete_spliceInsert {A} (l : list A) (j : nat) (x : A) :
  (j ≤ length l)%nat → delete j (spliceInsert j x l) = l.
Proof.
  intros Hj. unfold spliceInsert.
  assert (Hlen : length (take j l) = j) by (rewrite length_take; lia).
  rewrite <- Hlen at 1. rewrite delete_middle. apply take_drop.
Qed.

Lemma spliceInsert_delete {A} (l : list A) (i : nat) (x : A) :
  l !! i = Some x → spliceInsert i x (delete i l) = l.
Proof.
  intros Hi. unfold spliceInsert. rewrite delete_take_drop.
  assert (Hlt : (i < length l)%nat) by (by eapply lookup_lt_Some).
  assert (Hlen : length (take i l) = i) by (rewrite length_take; lia).
  rewrite take_app_length' by done.
  rewrite drop_app_length' by done.
  by apply take_drop_middle.
Qed.

(** C6 (reorder round trip).  For positions [i] and [j] of the steps,
    moving the step at [i] to [j] and then the step at [j] back to [i]
    restores the sequence. *)
Theorem reorderStep_round_trip (steps : list WorkflowStep.t) (i j : nat) :
  (i < length steps)%nat →
  (j < length steps)%nat →
  reorderStep steps i j ≫= (λ steps', reorderStep steps' j i) = Some steps.
Proof.
  intros Hi Hj. unfold reorderStep.
  destruct (lookup_lt_is_Some_2 steps i Hi) as [x Hx]. rewrite Hx. simpl.
  assert (Hlen : (j ≤ length (delete i steps))%nat)
    by (rewrite length_delete by eauto; lia).
  rewrite spliceInsert_lookup by done.
  rewrite delete_spliceInsert by done.
  f_equal. by apply spliceInsert_delete.
Qed.

Lemma digitValue_pretty_char d :
  (d < 10)%N → ParseInt.digitValue 10 (pretty_N_char d) = Some (Z.of_N d).
Proof.
  intros Hd.
  assert (d = 0 ∨ d = 1 ∨ d = 2 ∨ d = 3 ∨ d = 4 ∨ d = 5 ∨ d = 6 ∨ d = 7
          ∨ d = 8 ∨ d = 9)%N as Hcases by lia.
  repeat (destruct Hcases as [->|Hcases]; [done|]). by subst.
Qed.

Lemma isDigit_pretty_char d : JS.isDigit (pretty_N_char d) = true.
Proof. unfold pretty_N_char. by repeat case_match. Qed.

Lemma pretty_N_go_allDigits x : ∀ s,
  allDigits s = true → allDigits (pretty_N_go x s) = true.
Proof.
  induction (N.lt_wf_0 x) as [x _ IH]; intros s Hs.
  assert (x = 0 ∨ 0 < x)%N as [->|Hx] by lia; [by rewrite pretty_N_go_0|].
  rewrite pretty_N_go_step by done. apply IH; [by apply N.div_lt|].
  unfold allDigits in *. simpl. by rewrite isDigit_pretty_char, Hs.
Qed.

Lemma pretty_N_go_length x : ∀ s,
  (String.length s ≤ String.length (pretty_N_go x s))%nat.
Proof.
  induction (N.lt_wf_0 x) as [x _ IH]; intros s.
  assert (x = 0 ∨ 0 < x)%N as [->|Hx] by lia; [by rewrite pretty_N_go_0|].
  rewrite pretty_N_go_step by done.
  etrans; [|apply IH; by apply N.div_lt]. simpl. lia.
Qed.

(** Reading back the digits that [pretty] wrote. *)
Lemma digits_pretty_N_go x : ∀ s acc,
  ∃ k : nat,
    ParseInt.digits 10 acc (pretty_N_go x s)
    = ParseInt.digits 10
        (if decide (x = 0%N) then acc
         else Some (default 0 acc * 10 ^ Z.of_nat k + Z.of_N x)) s.
Proof.
  induction (N.lt_wf_0 x) as [x _ IH]; intros s acc.
  assert (x = 0 ∨ 0 < x)%N as [->|Hx] by lia.
  { exists 0%nat. by rewrite pretty_N_go_0. }
  rewrite pretty_N_go_step by done.
  destruct (IH (x `div` 10)%N (N.div_lt x 10 Hx eq_refl)
               (String (pretty_N_char (x `mod` 10)) s) acc) as [k Hk].
  rewrite Hk. cbn [ParseInt.digits].
  rewrite digitValue_pretty_char by (by apply N.mod_lt).
  destruct (decide (x = 0%N)) as [?|_]; [lia|].
  pose proof (N.div_mod x 10 ltac:(done)) as Hdm.
  destruct (decide (x `div` 10 = 0)%N) as [H0|Hn0].
  - exists 1%nat. do 2 f_equal. simpl default.
    rewrite H0 in Hdm. change (10 ^ Z.of_nat 1) with 10. lia.
  - exists (S k). do 2 f_equal. simpl default.
    rewrite Nat2Z.inj_succ, Z.pow_succ_r by lia. lia.
Qed.

Lemma digit_code a :
  JS.isDigit a = true → (48 ≤ JS.code a ≤ 57)%N.
Proof.
  unfold JS.isDigit. intros [?%N.leb_le ?%N.leb_le]%andb_true_iff. lia.
Qed.

Lemma unsigned_digit_string s :
  allDigits s = true → ParseInt.unsigned s = ParseInt.digits 10 None s.
Proof.
  intros Hs. unfold ParseInt.unsigned.
  assert (Hx : JS.startsWith s "0x" || JS.startsWith s "0X" = false).
  { destruct s as [|a [|b s]]; [done | simpl; by destruct (Ascii.eqb a "0") |].
    unfold allDigits in Hs. simpl in Hs.
    apply andb_true_iff in Hs as [_ [Hb%digit_code _]%andb_true_iff].
    assert (Hbx : Ascii.eqb b "x" = false)
      by (apply Ascii.eqb_neq; intros ->; unfold JS.code in Hb; simpl in Hb; lia).
    assert (HbX : Ascii.eqb b "X" = false)
      by (apply Ascii.eqb_neq; intros ->; unfold JS.code in Hb; simpl in Hb; lia).
    simpl. rewrite Hbx, HbX. by destruct (Ascii.eqb a "0"). }
  by rewrite Hx.
Qed.

Lemma mathInt_digit_string s :
  allDigits s = true → ParseInt.mathInt s = ParseInt.digits 10 None s.
Proof.
  intros Hall. destruct s as [|a s]; [done|].
  pose proof Hall as Hs. unfold allDigits in Hs. simpl in Hs.
  apply andb_true_iff in Hs as [Hcode%digit_code Hs].
  assert (Htrim : JS.trimStart (String a s) = String a s).
  { cbn [JS.trimStart]. unfold JS.isSpaceByte, JS.isSpace2, JS.isSpace3.
    repeat match goal with
           | |- context [(JS.code a =? ?n)%N] =>
               destruct (N.eqb_spec (JS.code a) n) as [Heq|_];
               [exfalso; clear -Heq Hcode; lia|]
           end.
    simpl. by destruct s as [|? [|? ?]]. }
  unfold ParseInt.mathInt. rewrite Htrim.
  assert (Hminus : Ascii.eqb a "-" = false).
  { apply Ascii.eqb_neq. intros ->. unfold JS.code in Hcode. simpl in Hcode. lia. }
  assert (Hplus : Ascii.eqb a "+" = false).
  { apply Ascii.eqb_neq. intros ->. unfold JS.code in Hcode. simpl in Hcode. lia. }
  rewrite Hminus, Hplus. by apply unsigned_digit_string.
Qed.

Lemma digits_pretty_pos p :
  ParseInt.digits 10 None (pretty (N.pos p)) = Some (Z.pos p).
Proof.
  change (pretty (N.pos p)) with (pretty_N_go (N.pos p) "").
  destruct (digits_pretty_N_go (N.pos p) "" None) as [k ->].
  rewrite decide_False by done. simpl. f_equal.
Qed.

(** The exact integer read back from the decimal text of an integer. *)
Lemma mathInt_pretty (n : Z) : ParseInt.mathInt (pretty n) = Some n.
Proof.
  destruct n as [|p|p]; [done| |].
  - change (pretty (Z.pos p)) with (pretty (N.pos p)).
    rewrite mathInt_digit_string by (by apply pretty_N_go_allDigits).
    apply digits_pretty_pos.
  - change (pretty (Z.neg p)) with (String "-" (pretty (N.pos p))).
    assert (Hall : allDigits (pretty (N.pos p)) = true)
      by (by apply pretty_N_go_allDigits).
    assert (Htrim : JS.trimStart (String "-" (pretty (N.pos p)))
                    = String "-" (pretty (N.pos p)))
      by (by destruct (pretty (N.pos p)) as [|? [|? ?]]).
    unfold ParseInt.mathInt. rewrite Htrim. simpl.
    by rewrite unsigned_digit_string, digits_pretty_pos.
Qed.

Lemma round53_exact n : Z.abs n ≤ 2 ^ 53 → Number.round53 n = n.
Proof.
  intros Hn. unfold Number.round53.
  destruct (decide (Z.abs n = 2 ^ 53)) as [Heq|Hne].
  - assert (n = 2 ^ 53 ∨ n = - 2 ^ 53) as [-> | ->] by lia; reflexivity.
  - assert (Hlog : Z.log2 (Z.abs n) < 53).
    { destruct (decide (Z.abs n = 0)) as [->|H0]; [done|].
      apply Z.log2_lt_pow2; lia. }
    destruct (Z.leb_spec (Z.log2 (Z.abs n) - 52) 0); [done | lia].
Qed.


Lemma ofInteger_exact n : Z.abs n ≤ 2 ^ 53 → Number.ofInteger n = Number.Int n.
Proof.
  intros Hn. unfold Number.ofInteger. rewrite round53_exact by done.
  assert (2 ^ 53 < 2 ^ 1024) by reflexivity.
  destruct (Z.leb_spec (2 ^ 1024) (Z.abs n)); [lia | done].
Qed.


(** [parseInt] reads back the decimal text of an integer up to [2^53]
    exactly. *)
Lemma parseInt_pretty (n : Z) :
  Z.abs n ≤ 2 ^ 53 → ParseInt.parseInt (pretty n) = Number.Int n.
Proof.
  intros Hn. unfold ParseInt.parseInt. rewrite mathInt_pretty.
  by apply ofInteger_exact.
Qed.

Lemma rowIndexOfInput_pretty (n : Z) :
  1 ≤ n ≤ 2 ^ 53 → rowIndexOfInput (pretty n) = Number.Int (n - 1).
Proof.
  intros Hn. unfold rowIndexOfInput. rewrite parseInt_pretty by lia. simpl.
  rewrite ofInteger_exact by lia. simpl. f_equal. lia.
Qed.





(** Up to [2^53] the row is shown as the decimal numeral of row + 1. *)
Lemma rowShown_pretty (row : Z) :
  Z.abs (row + 1) ≤ 2 ^ 53 → rowShown row = pretty (row + 1).
Proof.
  intros Hrow. unfold rowShown. simpl. rewrite ofInteger_exact by done. simpl.
  by destruct (Z.leb_spec (Z.abs (row + 1)) (2 ^ 53)); [|lia].
Qed.

(** X6.  Opening a step for editing and saving it unchanged leaves the plan
    as it was, for a step whose row is at least 0 and below [2^53]: the row
    is shown as the decimal numeral of row + 1 and read back as row.  (From
    [2^53] on row + 1 is rounded: see [edit_round_trip_bound].) *)
Lemma edit_unchanged_round_trip st p index step now :
  plan st = Some p →
  WorkflowPlan.steps p !! index = Some step →
  0 ≤ WorkflowStep.targetRowIndex step < 2 ^ 53 →
  ∃ st', saveStepEdit index (startEditing step index now st) = Some st'
         ∧ editRowIndex (startEditing step index now st)
           = pretty (WorkflowStep.targetRowIndex step + 1)
         ∧ plan st' = Some p
         ∧ editingStepId st' = None
         ∧ selectedIndices st' = selectedIndices st.
Proof.
  intros Hplan Hstep Hrow. unfold saveStepEdit, startEditing. simpl.
  rewrite Hplan, Hstep, rowShown_pretty by lia.
  rewrite rowIndexOfInput_pretty by lia.
  eexists. split; [reflexivity|]. split; [done|]. simpl. split; [|done]. f_equal.
  destruct p as [steps descr], step; simpl in *. unfold withSteps. simpl.
  f_equal. replace (targetRowIndex + 1 - 1) with targetRowIndex by lia.
  by apply list_insert_id.
Qed.


Lemma rendered_steps st st' :
  (∀ p, plan st = Some p →
        ∃ p', plan st' = Some p'
              ∧ (length (WorkflowPlan.steps p) ≤ length (WorkflowPlan.steps p'))%nat) →
  ∀ i, rendered st i → rendered st' i.
Proof.
  intros Hplan i (p & Hp & Hi). destruct (Hplan p Hp) as (p' & Hp' & Hlen).
  exists p'. split; [done | lia].
Qed.

Lemma selectionValid_same_selection st st' :
  selectedIndices st' = selectedIndices st →
  (∀ p, plan st = Some p →
        ∃ p', plan st' = Some p'
              ∧ (length (WorkflowPlan.steps p) ≤ length (WorkflowPlan.steps p'))%nat) →
  selectionValid st → selectionValid st'.
Proof.
  intros Hsel Hplan [Hnd Hall]. unfold selectionValid. rewrite Hsel.
  split; [done|]. eapply Forall_impl; [exact Hall|]. by apply rendered_steps.
Qed.

Lemma selectionValid_cleared st : selectedIndices st = [] → selectionValid st.
Proof. intros Hsel. unfold selectionValid. rewrite Hsel. split; constructor. Qed.

Lemma has_spec sel index : has sel index = true ↔ index ∈ sel.
Proof.
  unfold has. rewrite existsb_exists. split.
  - intros (i & Hin & ->%Nat.eqb_eq). by apply list_elem_of_In.
  - intros Hin. exists index. split; [by apply list_elem_of_In | apply Nat.eqb_refl].
Qed.

Lemma NoDup_bool_filter {A} (f : A → bool) (l : list A) :
  NoDup l → NoDup (List.filter f l).
Proof.
  induction 1 as [|x l Hx Hnd IH]; simpl; [constructor|].
  destruct (f x); [|done]. constructor; [|done].
  intros Hin. apply Hx. by apply list_elem_of_In, filter_In in Hin as [?%list_elem_of_In _].
Qed.

Lemma length_reorderStep steps i j steps' :
  reorderStep steps i j = Some steps' → length steps' = length steps.
Proof.
  unfold reorderStep. destruct (steps !! i) as [x|] eqn:Hx; [|done].
  intros [= <-]. unfold spliceInsert.
  rewrite length_app. simpl. rewrite length_take, length_drop.
  rewrite length_delete by eauto. apply lookup_lt_Some in Hx. lia.
Qed.

(** Every action of the editor keeps the selection a duplicate-free set of
    positions of existing steps. *)
Lemma selectionValid_preserved language table e st st' :
  selectionValid st →
  eventOnScreen e st →
  handleWizardEvent language table e st = Some st' →
  selectionValid st'.
Proof.
  intros Hvalid Hscreen Hstep. destruct e; simpl in Hstep, Hscreen.
  - injection Hstep as <-. by apply selectionValid_cleared.
  - injection Hstep as <-. unfold deleteStep.
    destruct (plan st); [by apply selectionValid_cleared | done].
  - destruct (plan st) as [p|] eqn:Hp; [|done]. simpl in Hstep.
    destruct (WorkflowPlan.steps p !! index) as [step|]; [|done].
    injection Hstep as <-.
    apply (selectionValid_same_selection st); [done | | exact Hvalid].
    intros p0 Hp0. exists p0. by split.
  - injection Hstep as <-.
    apply (selectionValid_same_selection st); [done | | exact Hvalid].
    intros p Hp. by exists p.
  - injection Hstep as <-.
    apply (selectionValid_same_selection st); [done | | exact Hvalid].
    intros p Hp. by exists p.
  - injection Hstep as <-.
    apply (selectionValid_same_selection st); [done | | exact Hvalid].
    intros p Hp. by exists p.
  - unfold saveStepEdit in Hstep. destruct (plan st) as [p|] eqn:Hp.
    + destruct (rowIndexOfInput _) as [| |row]; [done|done|].
      destruct (WorkflowPlan.steps p !! index); [|done]. injection Hstep as <-.
      apply (selectionValid_same_selection st); [done | | exact Hvalid].
      intros p0 Hp0. eexists. split; [reflexivity|]. simpl.
      rewrite length_insert. by simplify_eq.
    + by injection Hstep as <-.
  - injection Hstep as <-. unfold addNewStep. destruct (plan st) as [p|] eqn:Hp; [|done].
    apply (selectionValid_same_selection st); [done | | exact Hvalid].
    intros p0 Hp0. eexists. split; [reflexivity|]. simpl.
    rewrite length_app. simplify_eq. lia.
  - injection Hstep as <-. destruct Hvalid as [Hnd Hall].
    unfold toggleSelection, selectionValid. simpl.
    destruct (has (selectedIndices st) index) eqn:Hhas.
    + split.
      * by apply NoDup_bool_filter.
      * apply Forall_forall. intros i Hi.
        apply list_elem_of_In, filter_In in Hi as [Hi _].
        rewrite Forall_forall in Hall. destruct (Hall i) as (p & Hp & Hlt).
        { by apply list_elem_of_In. }
        by exists p.
    + split.
      * apply NoDup_app. split; [done|]. split; [|apply NoDup_singleton].
        intros i Hi ->%list_elem_of_singleton.
        apply has_spec in Hi. congruence.
      * apply Forall_app. split.
        -- eapply Forall_impl; [exact Hall|]. intros i (p & Hp & Hlt). by exists p.
        -- constructor; [|constructor]. destruct Hscreen as (p & Hp & Hlt). by exists p.
  - unfold duplicateSelected in Hstep. destruct (plan st) as [p|] eqn:Hp.
    + destruct (selectedIndices st) as [|i sel] eqn:Hsel.
      * by injection Hstep as <-.
      * destruct (duplicateSteps newId (WorkflowPlan.steps p) (i :: sel)); [|done].
        injection Hstep as <-. by apply selectionValid_cleared.
    + by injection Hstep as <-.
  - injection Hstep as <-. unfold deleteSelected. destruct (plan st) as [p|] eqn:Hp; [|done].
    destruct (selectedIndices st) eqn:Hsel; [done|]. by apply selectionValid_cleared.
  - injection Hstep as <-.
    apply (selectionValid_same_selection st); [done | | exact Hvalid].
    intros p Hp. by exists p.
  - unfold onDrop in Hstep. destruct (plan st) as [p|] eqn:Hp.
    + destruct (draggedIdx st) as [from|]; [|by injection Hstep as <-].
      destruct (reorderStep (WorkflowPlan.steps p) from dropIndex) as [newSteps|] eqn:Hre;
        [|done].
      injection Hstep as <-.
      apply (selectionValid_same_selection st); [done | | exact Hvalid].
      intros p0 Hp0. eexists. split; [reflexivity|]. simpl.
      rewrite (length_reorderStep _ _ _ _ Hre). by simplify_eq.
    + by injection Hstep as <-.
Qed.

(** X4.  In every state the editor can reach by actions on what is on
    screen (generating, deleting, opening a step for editing, typing into
    the edit fields, saving, adding, selecting, duplicating, dragging and
    dropping), the selection is a duplicate-free set of positions of
    existing steps. *)
Lemma wizardReaches_selectionValid language table st :
  wizardReaches language table st → selectionValid st.
Proof.
  induction 1 as [|st e st' _ IH Hscreen Hstep].
  - by apply selectionValid_cleared.
  - by eapply selectionValid_preserved.
Qed.

Lemma duplicateSteps_defined newId steps sel :
  Forall (λ i, (i < length steps)%nat) sel →
  is_Some (duplicateSteps newId steps sel).
Proof.
  intros Hrange. unfold duplicateSteps.
  assert (Hsome : is_Some (mapM (λ i, steps !! i) (sortIndices sel))).
  { apply mapM_is_Some. rewrite sortIndices_perm.
    eapply Forall_impl; [exact Hrange|]. intros i Hi. by apply lookup_lt_is_Some. }
  destruct Hsome as [selected ->]. simpl.
  destruct (map WorkflowStep.targetRowIndex selected); eauto.
Qed.

End Wizard.

(** ** Properties of the guided session *)

Section Session.
Import GuidedSession.
Context `{Engine}.
Local Arguments String.append !_ _ : simpl nomatch.

Lemma startsWith_spec s w :
  JS.startsWith s w = true ↔ ∃ rest, s = w +:+ rest.
Proof.
  revert s. induction w as [|b w IH]; intros s; simpl.
  - split; [by exists s | by destruct s].
  - destruct s as [|a s]; simpl.
    + split; [done | by intros [? ?]].
    + destruct (Ascii.eqb_spec a b) as [->|Hne].
      * rewrite IH. split; intros [rest Hr]; exists rest; simpl in *; congruence.
      * split; [done|]. intros [rest Hr]. simpl in Hr. congruence.
Qed.

(** [includes] is containment as a contiguous substring. *)
Lemma includes_spec s w :
  JS.includes s w = true ↔ ∃ before after, s = before +:+ w +:+ after.
Proof.
  induction s as [|a s IH]; cbn [JS.includes].
  - rewrite orb_false_r, startsWith_spec. split.
    + intros [rest Hr]. by exists "", rest.
    + intros ([|??] & after & Hr); [by exists after | discriminate].
  - rewrite orb_true_iff, startsWith_spec, IH. split.
    + intros [[rest Hr] | (before & after & Hr)].
      * by exists "", rest.
      * exists (String a before), after. by rewrite Hr.
    + intros ([|b before] & after & Hr).
      * left. by exists after.
      * right. exists before, after. simpl in Hr. congruence.
Qed.

(** Closes a goal from [H : e ∈ [e1; ...; en]] when [e] is none of them. *)
Ltac no_such_effect H :=
  repeat (apply elem_of_cons in H as [H|H]; [discriminate H|]);
  by apply elem_of_nil in H.

Lemma stop_word_nonempty language cleanText :
  existsb (λ w, JS.includes cleanText w) (stopWords language) = true →
  cleanText ≠ "".
Proof. intros Hex ->. by destruct language. Qed.

(** C2 (keyword precedence).  When the trimmed, lower-cased utterance
    contains a stop word of the session language, [handleResult] closes
    the session, emits no table write and leaves the cursor where it
    was, whatever else the utterance contains (digits, a skip word) and
    whatever the type of the current step. *)
Theorem stop_word_precedence (language : Language) (plan : WorkflowPlan.t)
    (st : State) (text w : string) :
  w ∈ stopWords language →
  JS.includes (toLowerCase (JS.trim text)) w = true →
  ∃ effs,
    handleResult language plan st text = Some (st, effs)
    ∧ OnClose ∈ effs
    ∧ Forall (λ e, isWrite e = false) effs.
Proof.
  intros Hw Hinc.
  assert (Hex : existsb (λ w, JS.includes (toLowerCase (JS.trim text)) w)
                        (stopWords language) = true).
  { apply existsb_exists. exists w. split; [by apply list_elem_of_In | done]. }
  pose proof (stop_word_nonempty _ _ Hex) as Hne.
  unfold handleResult.
  destruct (String.eqb_spec (toLowerCase (JS.trim text)) "") as [?|_]; [done|].
  rewrite Hex. eexists. split; [reflexivity|]. split.
  - set_solver.
  - by repeat constructor.
Qed.

Lemma spanDigits_no_digit s :
  hasDigit s = false → JS.spanDigits s = ("", s).
Proof.
  unfold hasDigit. destruct s as [|a s]; simpl; [done|].
  by destruct (JS.isDigit a).
Qed.

Lemma matchDecimalHere_no_digit s :
  hasDigit s = false → JS.matchDecimalHere s = None.
Proof. intros Hs. unfold JS.matchDecimalHere. by rewrite spanDigits_no_digit. Qed.

Lemma matchDecimalHere_digit a s :
  JS.isDigit a = true → is_Some (JS.matchDecimalHere (String a s)).
Proof.
  intros Ha. unfold JS.matchDecimalHere. simpl. rewrite Ha.
  destruct (JS.spanDigits s) as [d r].
  destruct r as [|dot r']; [eauto|].
  destruct (Ascii.eqb dot "."); [|eauto].
  destruct (JS.spanDigits r') as [[|??] ?]; eauto.
Qed.

Lemma matchNumberHere_None s :
  JS.matchNumberHere s = None → JS.matchDecimalHere s = None.
Proof.
  unfold JS.matchNumberHere. destruct s as [|a s]; [done|].
  destruct (Ascii.eqb a "-"); [|done].
  by destruct (JS.matchDecimalHere s).
Qed.

Lemma matchNumberHere_no_digit s :
  hasDigit s = false → JS.matchNumberHere s = None.
Proof.
  intros Hs. unfold JS.matchNumberHere. destruct s as [|a s]; [done|].
  rewrite (matchDecimalHere_no_digit _ Hs).
  destruct (Ascii.eqb a "-"); [|done].
  rewrite matchDecimalHere_no_digit; [done|].
  change (hasDigit (String a s)) with (JS.isDigit a || hasDigit s) in Hs.
  by apply orb_false_iff in Hs as [_ ?].
Qed.

(** The pattern finds nothing exactly when the text has no digit. *)
Lemma matchNumber_None s :
  JS.matchNumber s = None ↔ hasDigit s = false.
Proof.
  induction s as [|a s IH]; [done|].
  change (hasDigit (String a s)) with (JS.isDigit a || hasDigit s).
  rewrite orb_false_iff, <- IH.
  cbn [JS.matchNumber]. split.
  - destruct (JS.matchNumberHere (String a s)) eqn:Hhere; [done|].
    intros Hs. split; [|done].
    apply matchNumberHere_None in Hhere.
    destruct (JS.isDigit a) eqn:Ha; [|done].
    destruct (matchDecimalHere_digit a s Ha) as [m Hm]. congruence.
  - intros [Ha Hs]. rewrite matchNumberHere_no_digit; [done|].
    change (hasDigit (String a s)) with (JS.isDigit a || hasDigit s).
    apply IH in Hs. by rewrite Ha, Hs.
Qed.

Lemma replace_comma_cons a s :
  JS.replace (String a s) "," "."
  = if Ascii.eqb a "," then String "." s else String a (JS.replace s "," ".").
Proof.
  cbn [JS.replace JS.startsWith]. destruct (Ascii.eqb a ","); [|done].
  by destruct s.
Qed.

Lemma hasDigit_replace_comma s :
  hasDigit (JS.replace s "," ".") = hasDigit s.
Proof.
  induction s as [|a s IH]; [done|].
  rewrite replace_comma_cons.
  destruct (Ascii.eqb_spec a ",") as [->|_]; [done|].
  change (hasDigit (String a ?t)) with (JS.isDigit a || hasDigit t).
  by rewrite IH.
Qed.

(** With at most one comma in the text, replacing the first comma is
    replacing every comma. *)
Lemma replace_first_comma_is_all s :
  (commaCount s ≤ 1)%nat → JS.replace s "," "." = JS.replaceAllChar s "," ".".
Proof.
  unfold commaCount. induction s as [|a s IH]; [done|].
  rewrite replace_comma_cons. cbn [JS.replaceAllChar list_ascii_of_string List.filter].
  destruct (Ascii.eqb_spec a ",") as [->|_]; simpl; intros Hc.
  - f_equal. assert (H0 : length (List.filter (λ c, Ascii.eqb c ",")
                                   (list_ascii_of_string s)) = 0%nat) by lia.
    clear -H0. induction s as [|b s IH]; [done|]. simpl in *.
    destruct (Ascii.eqb b ","); [done|]. simpl. f_equal. by apply IH.
  - f_equal. by apply IH.
Qed.

(** X7.  When the cleaned text has at most one comma, the value captured
    for a number step is the one the specification describes: the first
    numeral of the text with every comma read as a period, or the text
    itself when it has none. *)
Lemma captureValue_number_spec cleanText :
  (commaCount cleanText ≤ 1)%nat →
  captureValue ExpectNumber cleanText
  = default cleanText (specNumberValue cleanText).
Proof.
  intros Hc. unfold captureValue, specNumberValue.
  rewrite replace_first_comma_is_all by done.
  by destruct (JS.matchNumber _).
Qed.

Lemma captureValue_no_digit expected cleanText :
  hasDigit cleanText = false → captureValue expected cleanText = cleanText.
Proof.
  intros Hd. destruct expected; [|done]. unfold captureValue.
  assert (Hn : JS.matchNumber (JS.replace cleanText "," ".") = None)
    by (apply matchNumber_None; by rewrite hasDigit_replace_comma).
  by rewrite Hn.
Qed.

(** [nextStep] moves the cursor forward by one, or closes the session at
    the last step; it writes nothing. *)
Lemma nextStep_advances language plan st :
  let '(st', effs) := nextStep language plan st in
  Forall (λ e, isWrite e = false) effs
  ∧ ((currentStepIndex st' = S (currentStepIndex st) ∧ effs = [])
     ∨ (st' = st ∧ OnClose ∈ effs)).
Proof.
  unfold nextStep.
  destruct (Z.of_nat (currentStepIndex st) <? _).
  - split; [constructor | by left].
  - split; [by repeat constructor | right; split; [done | set_solver]].
Qed.

(** A value utterance: neither empty, nor a stop or skip command. *)
Lemma handleResult_value language plan st text step :
  let cleanText := toLowerCase (JS.trim text) in
  cleanText ≠ "" →
  existsb (λ w, JS.includes cleanText w) (stopWords language) = false →
  existsb (λ w, JS.includes cleanText w) (nextWords language) = false →
  currentStep plan st = Some step →
  handleResult language plan st text
  = Some ((nextStep language plan st).1,
          Log (userSaid cleanText)
          :: OnValueReceived (WorkflowStep.targetRowIndex step)
               (WorkflowStep.targetColumnId step)
               (captureValue (WorkflowStep.expectedType step) cleanText)
          :: (nextStep language plan st).2).
Proof.
  intros cleanText Hne Hstop Hnext Hstep. unfold handleResult.
  fold cleanText. destruct (String.eqb_spec cleanText ""); [done|].
  rewrite Hstop, Hnext, Hstep. simpl. by destruct (nextStep language plan st).
Qed.

(** C10 (what a session write stores).  Whenever [handleResult] emits a
    table write, the written value is computed from the trimmed,
    lower-cased utterance alone, for the row and column of the current
    step; it is exactly that text for a text step, and for a number step
    whose text has no decimal digit (no numeric substring to extract). *)
Theorem session_write_from_clean_text (language : Language) (plan : WorkflowPlan.t)
    (st st' : State) (text : string) (effs : list Effect)
    (rowIndex : Z) (colId value : string) :
  handleResult language plan st text = Some (st', effs) →
  OnValueReceived rowIndex colId value ∈ effs →
  ∃ step,
    currentStep plan st = Some step
    ∧ rowIndex = WorkflowStep.targetRowIndex step
    ∧ colId = WorkflowStep.targetColumnId step
    ∧ value = captureValue (WorkflowStep.expectedType step) (toLowerCase (JS.trim text))
    ∧ (WorkflowStep.expectedType step = ExpectText →
       value = toLowerCase (JS.trim text))
    ∧ (WorkflowStep.expectedType step = ExpectNumber →
       hasDigit (toLowerCase (JS.trim text)) = false →
       value = toLowerCase (JS.trim text)).
Proof.
  unfold handleResult. set (cleanText := toLowerCase (JS.trim text)).
  pose proof (nextStep_advances language plan st) as Hnext.
  destruct (nextStep language plan st) as [st1 effs1]. destruct Hnext as [Hnw _].
  assert (Hno : ∀ r c v, OnValueReceived r c v ∉ effs1).
  { intros r c v Hin. rewrite Forall_forall in Hnw. by specialize (Hnw _ Hin). }
  intros Hres Hin.
  destruct (String.eqb cleanText ""); [injection Hres as <- <-; no_such_effect Hin|].
  destruct (existsb _ (stopWords language)); [injection Hres as <- <-; no_such_effect Hin|].
  destruct (existsb _ (nextWords language)).
  { injection Hres as <- <-. apply elem_of_cons in Hin as [?|Hin]; [done|].
    by apply Hno in Hin. }
  destruct (currentStep plan st) as [step|]; [|done]. simpl in Hres.
  injection Hres as <- <-. exists step.
  apply elem_of_cons in Hin as [?|Hin]; [done|].
  apply elem_of_cons in Hin as [Heq|Hin]; [|by apply Hno in Hin].
  injection Heq as -> -> ->. split_and!; try done.
  - by intros ->.
  - intros _ Hd. by apply captureValue_no_digit.
Qed.

End Session.

(** ** Properties of the table updates *)

Section Table.
Import App.

Lemma length_copyRows rows : length (copyRows rows) = length rows.
Proof. apply length_map. Qed.

Lemma copyRows_lookup rows j :
  copyRows rows !! j
  = (λ s, match s with Hole => Undefined | _ => s end) <$> rows !! j.
Proof. apply list_lookup_fmap. Qed.

Lemma copyRows_row rows j r :
  rows !! j = Some (Row r) → copyRows rows !! j = Some (Row r).
Proof. intros Hrow. by rewrite copyRows_lookup, Hrow. Qed.

Lemma copyRows_idemp rows : copyRows (copyRows rows) = copyRows rows.
Proof.
  unfold copyRows. rewrite map_map. apply map_ext. by intros [| |r].
Qed.

(** A table that has a row at every position is its own copy. *)
Lemma copyRows_dense rows : Forall isRow rows → copyRows rows = rows.
Proof.
  induction 1 as [|s rows [r ->] _ IH]; [done|]. simpl. by rewrite IH.
Qed.




Lemma applyRowUpdate_in_range action rows u :
  action ≠ ActAppend →
  0 ≤ RowUpdate.rowIndex u < Z.of_nat (length rows) →
  applyRowUpdate action rows u
  = <[Z.to_nat (RowUpdate.rowIndex u) :=
        Row (RowUpdate.updates u ∪ spread (rows !! Z.to_nat (RowUpdate.rowIndex u)))]> rows.
Proof.
  intros Hact Hi. unfold applyRowUpdate.
  destruct (Z.eqb_spec (RowUpdate.rowIndex u) (-1)); [lia|].
  destruct action; try done; simpl;
    destruct (Z.leb_spec 0 (RowUpdate.rowIndex u)); try lia;
    destruct (Z.ltb_spec (RowUpdate.rowIndex u) (Z.of_nat (length rows))); try lia;
    done.
Qed.

Lemma applyRowUpdate_past_end action rows u :
  action ≠ ActAppend →
  Z.of_nat (length rows) ≤ RowUpdate.rowIndex u →
  applyRowUpdate action rows u = rows.
Proof.
  intros Hact Hi. unfold applyRowUpdate.
  destruct (Z.eqb_spec (RowUpdate.rowIndex u) (-1)); [lia|].
  destruct action; try done; simpl;
    destruct (Z.ltb_spec (RowUpdate.rowIndex u) (Z.of_nat (length rows))); try lia;
    by rewrite andb_false_r.
Qed.

(** The length after a batch: one more row for every entry that adds one. *)
Lemma length_foldl_applyRowUpdate action us : ∀ rows,
  length (foldl (applyRowUpdate action) rows us)
  = (length rows + length (List.filter (addsRow action) us))%nat.
Proof.
  induction us as [|u us IH]; intros rows; simpl; [lia|].
  rewrite IH. unfold applyRowUpdate, addsRow.
  destruct ((RowUpdate.rowIndex u =? -1) || _); simpl.
  - rewrite length_app. simpl. lia.
  - destruct (_ && _); by rewrite ?length_insert.
Qed.

(** C8, as the code has it (merge, drop, frame).  Under an action other
    than append, [handleVoiceUpdate] applies the entries of the batch in
    order to a copy of the table's rows.  An entry [u] with a [rowIndex]
    that is not negative is compared with the number of rows at the moment
    it is applied, [mid]: the rows of the table and one more for every
    earlier entry of the batch with [rowIndex = -1].  Below that number the
    row at the index is replaced by the row merged with the entry's
    updates (fields named by the updates take the new values, all other
    fields keep theirs) and every other row is unchanged; at or above it
    the entry changes nothing.  In both cases the remaining entries are
    applied next. *)
Theorem update_merges_or_drops (now : Z) (result : VoiceUpdateResult.t) (st : State)
    (table : TableData.t) (before after : list RowUpdate.t) (u : RowUpdate.t) :
  currentTable st = Some table →
  VoiceUpdateResult.action result ≠ ActAppend →
  VoiceUpdateResult.rowUpdates result = before ++ u :: after →
  0 ≤ RowUpdate.rowIndex u →
  ∃ table' mid applied,
    let action := VoiceUpdateResult.action result in
    let i := Z.to_nat (RowUpdate.rowIndex u) in
    currentTable (handleVoiceUpdate now result st) = Some table'
    ∧ TableData.columns table' = TableData.columns table
    ∧ mid = foldl (applyRowUpdate action) (copyRows (TableData.rows table)) before
    ∧ length mid
      = (length (TableData.rows table)
         + length (List.filter (λ b, (RowUpdate.rowIndex b =? -1)%Z) before))%nat
    ∧ TableData.rows table' = foldl (applyRowUpdate action) applied after
    ∧ length applied = length mid
    ∧ (RowUpdate.rowIndex u < Z.of_nat (length mid) →
       ∃ merged,
         applied !! i = Some (Row merged)
         ∧ (∀ k v, RowUpdate.updates u !! k = Some v → merged !! k = Some v)
         ∧ (∀ k, RowUpdate.updates u !! k = None →
                 merged !! k = spread (mid !! i) !! k)
         ∧ (∀ j, j ≠ i → applied !! j = mid !! j))
    ∧ (Z.of_nat (length mid) ≤ RowUpdate.rowIndex u → applied = mid).
Proof.
  intros Htable Hact Hbatch Hi.
  set (action := VoiceUpdateResult.action result).
  set (i := Z.to_nat (RowUpdate.rowIndex u)).
  set (mid := foldl (applyRowUpdate action) (copyRows (TableData.rows table)) before).
  exists (withRows table (applyRowUpdates result (copyRows (TableData.rows table))) now),
         mid, (applyRowUpdate action mid u).
  cbv zeta. fold action i.
  split; [unfold handleVoiceUpdate; by rewrite Htable|].
  split; [done|]. split; [done|].
  split.
  { unfold mid. rewrite length_foldl_applyRowUpdate, length_copyRows. f_equal.
    f_equal. apply List.filter_ext. intros b. unfold addsRow. subst action.
    destruct (VoiceUpdateResult.action result); try apply orb_false_r. done. }
  split.
  { simpl. unfold applyRowUpdates. rewrite Hbatch, foldl_app. done. }
  destruct (Z.lt_ge_cases (RowUpdate.rowIndex u) (Z.of_nat (length mid))) as [Hlt|Hge].
  - rewrite applyRowUpdate_in_range by done. fold i.
    split; [apply length_insert|]. split; [|lia].
    intros _. eexists. split_and!.
    + apply list_lookup_insert_eq. lia.
    + intros k v Hk. by apply lookup_union_Some_l.
    + intros k Hk. by apply lookup_union_r.
    + intros j Hj. by apply list_lookup_insert_ne.
  - rewrite applyRowUpdate_past_end by done. split; [done|]. split; [lia | done].
Qed.

(** A batch without new rows keeps the number of rows, so that the test
    against the current length is a test against the length before the
    batch. *)
Lemma applyRowUpdates_length action fb us : ∀ rows,
  action ≠ ActAppend →
  Forall (λ u, RowUpdate.rowIndex u ≠ -1) us →
  length (applyRowUpdates (VoiceUpdateResult.mk us action fb) rows) = length rows.
Proof.
  unfold applyRowUpdates. simpl.
  induction us as [|u us IH]; intros rows Hact Hall; [done|].
  inversion Hall as [|? ? Hu Hus]; subst. simpl. rewrite IH by done.
  unfold applyRowUpdate.
  destruct (Z.eqb_spec (RowUpdate.rowIndex u) (-1)); [done|].
  destruct action; try done; simpl;
    destruct (_ && _); by rewrite ?length_insert.
Qed.


Lemma length_arraySet i v arr :
  length (arraySet i v arr) = (length arr `max` S i)%nat.
Proof.
  unfold arraySet. case_decide.
  - rewrite length_insert. lia.
  - rewrite !length_app, length_replicate. simpl. lia.
Qed.

Lemma arraySet_lookup_eq i v arr : arraySet i v arr !! i = Some (Row v).
Proof.
  unfold arraySet. case_decide.
  - by apply list_lookup_insert_eq.
  - rewrite lookup_app_r by lia. rewrite lookup_app_r; rewrite length_replicate; [|lia].
    by rewrite Nat.sub_diag.
Qed.

Lemma arraySet_lookup_ne i j v arr :
  j ≠ i →
  arraySet i v arr !! j
  = if decide (j < length arr)%nat then arr !! j
    else if decide (j < i)%nat then Some Hole else None.
Proof.
  intros Hne. unfold arraySet. destruct (decide (i < length arr)%nat).
  - rewrite list_lookup_insert_ne by done.
    repeat case_decide; try done; try lia.
    apply lookup_ge_None. lia.
  - destruct (decide (j < length arr)%nat).
    + by rewrite lookup_app_l.
    + rewrite lookup_app_r by lia. destruct (decide (j < i)%nat).
      * rewrite lookup_app_l by (rewrite length_replicate; lia).
        apply lookup_replicate. split; [done | lia].
      * apply lookup_ge_None. rewrite length_app, length_replicate. simpl. lia.
Qed.

Lemma baseRow_copyRows columns rows i :
  baseRow columns (copyRows rows) i = baseRow columns rows i.
Proof.
  unfold baseRow. rewrite copyRows_lookup. by destruct (rows !! i) as [[| |r]|].
Qed.

(** The row a guided write starts from: the existing row, or a fresh row
    with every column set to the empty text. *)
Lemma guidedRows_unfold columns rows rowIndex colId val :
  0 ≤ rowIndex →
  guidedRows columns rows rowIndex colId val
  = match rows !! Z.to_nat rowIndex with
    | Some (Row r) =>
        arraySet (Z.to_nat rowIndex) (<[colId := VString val]> r) (copyRows rows)
    | _ =>
        arraySet (Z.to_nat rowIndex) (<[colId := VString val]> (emptyRow columns))
                 (arraySet (Z.to_nat rowIndex) (emptyRow columns) (copyRows rows))
    end.
Proof.
  intros Hi. unfold guidedRows.
  destruct (Z.ltb_spec rowIndex 0); [lia|].
  rewrite copyRows_lookup.
  destruct (rows !! Z.to_nat rowIndex) as [[| |r]|] eqn:Hrow; simpl.
  - by rewrite arraySet_lookup_eq.
  - by rewrite arraySet_lookup_eq.
  - by rewrite copyRows_lookup, Hrow.
  - by rewrite arraySet_lookup_eq.
Qed.

(** The rows after a guided write, position by position. *)
Lemma guidedRows_lookup columns rows rowIndex colId val j :
  0 ≤ rowIndex →
  guidedRows columns rows rowIndex colId val !! j
  = if decide (j = Z.to_nat rowIndex)
    then Some (Row (<[colId := VString val]> (baseRow columns rows (Z.to_nat rowIndex))))
    else if decide (j < length rows)%nat then copyRows rows !! j
    else if decide (j < Z.to_nat rowIndex)%nat then Some Hole else None.
Proof.
  intros Hi. rewrite guidedRows_unfold by done. unfold baseRow.
  destruct (decide (j = Z.to_nat rowIndex)) as [->|Hne].
  - destruct (rows !! Z.to_nat rowIndex) as [[| |r]|]; apply arraySet_lookup_eq.
  - destruct (rows !! Z.to_nat rowIndex) as [[| |r]|] eqn:Hrow;
      rewrite !arraySet_lookup_ne by done; rewrite ?length_arraySet, ?length_copyRows;
      try (apply lookup_lt_Some in Hrow); try (apply lookup_ge_None in Hrow);
      repeat case_decide; try done; lia.
Qed.

Lemma length_guidedRows columns rows rowIndex colId val :
  0 ≤ rowIndex →
  length (guidedRows columns rows rowIndex colId val)
  = (length rows `max` S (Z.to_nat rowIndex))%nat.
Proof.
  intros Hi. rewrite guidedRows_unfold by done.
  destruct (rows !! Z.to_nat rowIndex) as [[| |r]|];
    rewrite !length_arraySet, length_copyRows; lia.
Qed.

Lemma length_guidedRows_ge columns rows rowIndex colId val :
  (length rows ≤ length (guidedRows columns rows rowIndex colId val))%nat.
Proof.
  destruct (Z.lt_ge_cases rowIndex 0) as [Hneg|Hpos].
  - unfold guidedRows. destruct (Z.ltb_spec rowIndex 0); [|lia].
    by rewrite length_copyRows.
  - rewrite length_guidedRows by done. lia.
Qed.


Lemma guidedRows_dense columns rows rowIndex colId val :
  Forall isRow rows →
  rowIndex ≤ Z.of_nat (length rows) →
  Forall isRow (guidedRows columns rows rowIndex colId val).
Proof.
  intros Hdense Hle. destruct (Z.lt_ge_cases rowIndex 0) as [Hneg|Hpos].
  - unfold guidedRows. destruct (Z.ltb_spec rowIndex 0); [|lia].
    by rewrite copyRows_dense.
  - apply Forall_lookup. intros j s Hj.
    rewrite guidedRows_lookup in Hj by done.
    destruct (decide (j = Z.to_nat rowIndex)); [injection Hj as <-; by eexists|].
    destruct (decide (j < length rows)%nat).
    + rewrite copyRows_dense in Hj by done.
      rewrite Forall_lookup in Hdense. by eapply Hdense.
    + case_decide; [lia | done].
Qed.


End Table.

(** ** Properties of the CSV import *)

Section Csv.
Import FileService.
Context `{Engine}.

Lemma upgrade_idemp col : upgrade (upgrade col) = upgrade col.
Proof. by destruct col as [? ? []]. Qed.

Lemma upgrade_id col : Column.id (upgrade col) = Column.id col.
Proof. by destruct col as [? ? []]. Qed.

Lemma parseCells_columns values : ∀ cols idx row k,
  (parseCells values idx cols row).2 !! k
  = (λ col, if isCanonicalNumber (default "" (values !! (idx + k)%nat))
            then upgrade col else col) <$> cols !! k.
Proof.
  induction cols as [|col rest IH]; intros idx row k; [done|].
  cbn [parseCells].
  destruct (isCanonicalNumber (default "" (values !! idx))) eqn:Hc.
  - specialize (IH (S idx) (<[Column.id col :=
        VNumber (parseFloat (default "" (values !! idx)))]> row)).
    destruct (parseCells values (S idx) rest _) as [row' rest']. simpl in IH.
    destruct k as [|k]; simpl.
    + by rewrite Nat.add_0_r, Hc.
    + rewrite (IH k). simpl. by rewrite Nat.add_succ_r.
  - specialize (IH (S idx) (<[Column.id col :=
        VString (default "" (values !! idx))]> row)).
    destruct (parseCells values (S idx) rest _) as [row' rest']. simpl in IH.
    destruct k as [|k]; simpl.
    + by rewrite Nat.add_0_r, Hc.
    + rewrite (IH k). simpl. by rewrite Nat.add_succ_r.
Qed.

(** After all data lines, a column has been upgraded exactly when some
    line held a canonical number in it. *)
Lemma parseRows_columns lines : ∀ cols k,
  (parseRows lines cols).2 !! k
  = (λ col, if existsb (λ line, isCanonicalNumber (cellText line k)) lines
            then upgrade col else col) <$> cols !! k.
Proof.
  induction lines as [|line more IH]; intros cols k.
  - simpl. by destruct (cols !! k).
  - cbn [parseRows existsb].
    pose proof (parseCells_columns (fields line) cols 0 ∅ k) as Hcells.
    destruct (parseCells (fields line) 0 cols ∅) as [row cols1].
    specialize (IH cols1 k).
    destruct (parseRows more cols1) as [rows cols2]. simpl in *.
    rewrite IH, Hcells. unfold cellText.
    destruct (cols !! k) as [col|]; [|done]. simpl. f_equal.
    destruct (isCanonicalNumber (default "" (fields line !! k))),
             (existsb _ more); simpl; try done.
    apply upgrade_idemp.
Qed.

Lemma initialColumns_lookup headers k :
  initialColumns headers !! k
  = (λ h, Column.mk ("col_" +:+ pretty k)
            (if String.eqb h "" then "Column " +:+ pretty (k + 1)%nat else h)
            TypeText) <$> headers !! k.
Proof. unfold initialColumns. apply list_lookup_imap. Qed.

(** C4, as the code has it.  A successful import names its columns
    [col_0], [col_1], ... in header order, and types a column as number
    exactly when at least one data line holds a canonical number in that
    column, as text otherwise (so a text value in some other line does not
    prevent the number type). *)
Theorem parseCSV_column_types (uuid : string) (now1 now2 : Z)
    (content fileName : string) (t : TableData.t) :
  parseCSV uuid now1 now2 content fileName = Some t →
  ∃ header body,
    nonBlankLines content = header :: body
    ∧ map Column.id (TableData.columns t)
      = map (λ idx : nat, "col_" +:+ pretty idx) (seq 0 (length (fields header)))
    ∧ ∀ idx col,
        TableData.columns t !! idx = Some col →
        (Column.type col = TypeNumber
         ↔ ∃ line, line ∈ body ∧ isCanonicalNumber (cellText line idx) = true)
        ∧ (Column.type col = TypeText
           ↔ ∀ line, line ∈ body → isCanonicalNumber (cellText line idx) = false).
Proof.
  unfold parseCSV. intros Hparse.
  destruct (nonBlankLines content) as [|header body]; [done|].
  exists header, body. split; [done|].
  pose proof (parseRows_columns body (initialColumns (fields header))) as Hcols.
  destruct (parseRows body (initialColumns (fields header))) as [rows cols'].
  injection Hparse as <-. simpl in *.
  assert (Hlook : ∀ k, cols' !! k
    = (λ h, let col := Column.mk ("col_" +:+ pretty k)
                         (if String.eqb h "" then "Column " +:+ pretty (k + 1)%nat else h)
                         TypeText in
            if existsb (λ line, isCanonicalNumber (cellText line k)) body
            then upgrade col else col) <$> fields header !! k).
  { intros k. rewrite Hcols, initialColumns_lookup. by destruct (fields header !! k). }
  split.
  - apply list_eq. intros k. rewrite !list_lookup_fmap, Hlook.
    destruct (decide (k < length (fields header))%nat) as [Hlt|Hge].
    + rewrite lookup_seq_lt by done.
      destruct (lookup_lt_is_Some_2 _ _ Hlt) as [h ->]. simpl.
      by destruct (existsb _ body).
    + rewrite lookup_seq_ge by lia. by rewrite lookup_ge_None_2 by lia.
  - intros idx col Hcol. rewrite Hlook in Hcol.
    destruct (fields header !! idx) as [h|]; [|done]. simpl in Hcol.
    injection Hcol as <-.
    destruct (existsb _ body) eqn:Hex; simpl.
    + apply existsb_exists in Hex as (line & Hin & Hline).
      apply list_elem_of_In in Hin. split; split; try done.
      * intros _. by exists line.
      * intros Hall. specialize (Hall line Hin). congruence.
    + split; split; try done.
      * intros (line & Hin & Hline).
        assert (Hex' : existsb (λ line, isCanonicalNumber (cellText line idx)) body = true).
        { apply existsb_exists. exists line. by rewrite <- list_elem_of_In. }
        congruence.
      * intros _ line Hin. destruct (isCanonicalNumber (cellText line idx)) eqn:Hl; [|done].
        assert (Hex' : existsb (λ line, isCanonicalNumber (cellText line idx)) body = true).
        { apply existsb_exists. exists line. by rewrite <- list_elem_of_In. }
        congruence.
Qed.

End Csv.

(** ** The theorems at sample inputs *)

Section Instances.
Import WorkflowWizard GuidedSession App FileService.


Lemma reorderStep_round_trip_witness :
  reorderStep (WorkflowPlan.steps blockPlan) 0 2 ≫= (λ steps', reorderStep steps' 2 0)
  = Some (WorkflowPlan.steps blockPlan).
Proof. apply reorderStep_round_trip; simpl; lia. Defined.


Lemma stop_word_precedence_witness :
  ∃ effs,
    handleResult (H := basicEngine) En quantityPlan sessionStart " STOP 42 "
    = Some (sessionStart, effs)
    ∧ OnClose ∈ effs
    ∧ Forall (λ e, isWrite e = false) effs.
Proof.
  apply (stop_word_precedence (H := basicEngine) En quantityPlan sessionStart
           " STOP 42 " "stop").
  - apply list_elem_of_here.
  - reflexivity.
Defined.

Lemma session_write_from_clean_text_witness :
  ∃ step,
    currentStep quantityPlan sessionStart = Some step
    ∧ 0 = WorkflowStep.targetRowIndex step
    ∧ "c0" = WorkflowStep.targetColumnId step
    ∧ "seven"
      = captureValue (WorkflowStep.expectedType step)
          (toLowerCase (Engine := basicEngine) (JS.trim "  Seven "))
    ∧ (WorkflowStep.expectedType step = ExpectText →
       "seven" = toLowerCase (Engine := basicEngine) (JS.trim "  Seven "))
    ∧ (WorkflowStep.expectedType step = ExpectNumber →
       hasDigit (toLowerCase (Engine := basicEngine) (JS.trim "  Seven ")) = false →
       "seven" = toLowerCase (Engine := basicEngine) (JS.trim "  Seven ")).
Proof.
  apply (session_write_from_clean_text (H := basicEngine) En quantityPlan sessionStart
           (GuidedSession.mkState 1 false "") "  Seven "
           [Log (userSaid "seven"); OnValueReceived 0 "c0" "seven"] 0 "c0" "seven").
  - reflexivity.
  - apply list_elem_of_further, list_elem_of_here.
Defined.


Lemma update_merges_or_drops_witness :
  ∃ table' mid applied,
    let action := ActUpdate in
    let i := Z.to_nat (RowUpdate.rowIndex (noteUpdate 0)) in
    currentTable
      (handleVoiceUpdate 200
         (VoiceUpdateResult.mk [noteUpdate 4; noteUpdate 0; noteUpdate (-1)] ActUpdate "ok")
         stockApp)
    = Some table'
    ∧ TableData.columns table' = TableData.columns stockTable
    ∧ mid = foldl (applyRowUpdate action) (copyRows (TableData.rows stockTable))
                  [noteUpdate 4]
    ∧ length mid
      = (length (TableData.rows stockTable)
         + length (List.filter (λ b, (RowUpdate.rowIndex b =? -1)%Z) [noteUpdate 4]))%nat
    ∧ TableData.rows table' = foldl (applyRowUpdate action) applied [noteUpdate (-1)]
    ∧ length applied = length mid
    ∧ (RowUpdate.rowIndex (noteUpdate 0) < Z.of_nat (length mid) →
       ∃ merged,
         applied !! i = Some (Row merged)
         ∧ (∀ k v, RowUpdate.updates (noteUpdate 0) !! k = Some v → merged !! k = Some v)
         ∧ (∀ k, RowUpdate.updates (noteUpdate 0) !! k = None →
                 merged !! k = spread (mid !! i) !! k)
         ∧ (∀ j, j ≠ i → applied !! j = mid !! j))
    ∧ (Z.of_nat (length mid) ≤ RowUpdate.rowIndex (noteUpdate 0) → applied = mid).
Proof.
  apply (update_merges_or_drops 200
           (VoiceUpdateResult.mk [noteUpdate 4; noteUpdate 0; noteUpdate (-1)] ActUpdate "ok")
           stockApp stockTable [noteUpdate 4] [noteUpdate (-1)] (noteUpdate 0)).
  - reflexivity.
  - discriminate.
  - reflexivity.
  - simpl. lia.
Defined.

(** C8, as the specification words it, fails.  The table has one row; the
    batch, under the action update, holds an entry with [rowIndex = -1]
    and then an entry with [rowIndex = 1], which is the number of rows of
    the table.  The second entry is not dropped: it is merged into the row
    that the first entry added. *)
Lemma update_at_row_count_is_merged :
  ∃ table' merged,
    currentTable
      (handleVoiceUpdate 200
         (VoiceUpdateResult.mk [RowUpdate.mk (-1) {[ "c0" := VString "9" ]}; noteUpdate 1]
                               ActUpdate "ok")
         stockApp)
    = Some table'
    ∧ Z.of_nat (length (TableData.rows stockTable)) ≤ RowUpdate.rowIndex (noteUpdate 1)
    ∧ TableData.rows table'
      = [Row {[ "c0" := VString "5"; "c1" := VString "ok" ]}; Row merged]
    ∧ merged !! "c0" = Some (VString "9")
    ∧ merged !! "c1" = Some (VString "late").
Proof.
  eexists _, _. split; [reflexivity|]. split; [simpl; lia|].
  split; [reflexivity|]. split; reflexivity.
Qed.



Lemma parseCSV_column_types_witness :
  ∃ t,
    parseCSV (H := basicEngine) "id-1" 10 11 mixedCsv "stock.csv" = Some t
    ∧ ∃ header body,
        nonBlankLines mixedCsv = header :: body
        ∧ map Column.id (TableData.columns t)
          = map (λ idx : nat, "col_" +:+ pretty idx) (seq 0 (length (fields header)))
        ∧ ∀ idx col,
            TableData.columns t !! idx = Some col →
            (Column.type col = TypeNumber
             ↔ ∃ line, line ∈ body
                       ∧ isCanonicalNumber (H := basicEngine) (cellText line idx) = true)
            ∧ (Column.type col = TypeText
               ↔ ∀ line, line ∈ body →
                         isCanonicalNumber (H := basicEngine) (cellText line idx) = false).
Proof.
  destruct (parseCSV (H := basicEngine) "id-1" 10 11 mixedCsv "stock.csv") as [t|] eqn:Hparse.
  - exists t. split; [reflexivity|].
    exact (parseCSV_column_types (H := basicEngine) "id-1" 10 11 mixedCsv "stock.csv" t Hparse).
  - vm_compute in Hparse. discriminate.
Defined.

(** C4, as the specification words it, fails: in [mixedCsv] the only column
    is typed number although its second value, the word abc, is not empty
    and is not a canonical number. *)
Lemma parseCSV_number_despite_text :
  ∃ t col,
    parseCSV (H := basicEngine) "id-1" 10 11 mixedCsv "stock.csv" = Some t
    ∧ TableData.columns t !! 0%nat = Some col
    ∧ Column.type col = TypeNumber
    ∧ nonBlankLines mixedCsv = ["qty"; "1"; "abc"]
    ∧ cellText "abc" 0 = "abc"
    ∧ "abc" ≠ ""
    ∧ isCanonicalNumber (H := basicEngine) "abc" = false.
Proof.
  eexists _, _. split; [vm_compute; reflexivity|].
  split; [reflexivity|]. repeat split; discriminate.
Qed.

(** C3 at the utterance [Ok, 12,5] for a number step: the written value is
    12, because only the first comma of the text is replaced; replacing
    every comma, as the specification says, gives 12.5.  The cursor
    advances. *)
Theorem number_value_first_comma_only :
  handleResult (H := basicEngine) En quantityPlan sessionStart "Ok, 12,5"
  = Some (GuidedSession.mkState 1 false "",
          [Log (userSaid "ok, 12,5"); OnValueReceived 0 "c0" "12"])
  ∧ specNumberValue "ok, 12,5" = Some "12.5"
  ∧ captureValue ExpectNumber "12,5" = "12.5".
Proof. repeat split. Qed.

(** The end-to-end scenario: the transcripts 5 and seven fill rows 0 and
    1 of column c0 (the second by the raw fallback) and the session is
    closed after the second. *)
Example guided_session_end_to_end :
  ∃ st app table,
    runSession (H := basicEngine) En qtyPlan 1 sessionStart
               (App.mkState (Some qtyTable) None []) ["5"; "Seven"]
    = Some (true, st, app)
    ∧ currentTable app = Some table
    ∧ TableData.rows table
      = [Row {[ "c0" := VString "5" ]}; Row {[ "c0" := VString "seven" ]}].
Proof. eexists _, _, _. split; [vm_compute; reflexivity|]. split; reflexivity. Qed.

Example update_in_range_merges :
  applyRowUpdate ActUpdate (TableData.rows stockTable) (noteUpdate 0)
  = [Row {[ "c0" := VString "5"; "c1" := VString "late" ]}].
Proof. vm_compute. reflexivity. Qed.

Example update_past_end_dropped :
  applyRowUpdates (VoiceUpdateResult.mk [noteUpdate 4; noteUpdate 0] ActUpdate "ok")
                  (TableData.rows stockTable)
  = [Row {[ "c0" := VString "5"; "c1" := VString "late" ]}].
Proof. vm_compute. reflexivity. Qed.

Example append_ignores_row_index :
  applyRowUpdates (VoiceUpdateResult.mk [noteUpdate 0] ActAppend "ok")
                  (TableData.rows stockTable)
  = [Row {[ "c0" := VString "5"; "c1" := VString "ok" ]};
     Row {[ "c1" := VString "late" ]}].
Proof. vm_compute. reflexivity. Qed.

Example guided_write_past_end :
  guidedRows stockColumns (TableData.rows stockTable) 2 "c0" "12"
  = [Row {[ "c0" := VString "5"; "c1" := VString "ok" ]};
     Hole;
     Row {[ "c0" := VString "12"; "c1" := VString "" ]}].
Proof. vm_compute. reflexivity. Qed.

(** The write after one that skipped a row copies the hole as [undefined],
    and the render of the table throws. *)
Example guided_write_after_hole :
  guidedRows stockColumns
    (guidedRows stockColumns (TableData.rows stockTable) 2 "c0" "12") 0 "c0" "7"
  = [Row {[ "c0" := VString "7"; "c1" := VString "ok" ]};
     Undefined;
     Row {[ "c0" := VString "12"; "c1" := VString "" ]}]
  ∧ renders (handleGuidedValue 1 1 2 "c0" "12" stockApp) = true
  ∧ renders (handleGuidedValue 2 2 0 "c0" "7" (handleGuidedValue 1 1 2 "c0" "12" stockApp))
    = false.
Proof. vm_compute. repeat split. Qed.

Example guided_write_existing_row :
  guidedRows stockColumns (TableData.rows stockTable) 0 "c0" "12"
  = [Row {[ "c0" := VString "12"; "c1" := VString "ok" ]}].
Proof. vm_compute. reflexivity. Qed.

Example duplicate_block :
  (λ steps, map WorkflowStep.targetRowIndex steps)
    <$> duplicateSteps copyId (WorkflowPlan.steps blockPlan) [2%nat; 0%nat]
  = Some [3; 4; 7; 4; 8; 12].
Proof. vm_compute. reflexivity. Qed.

Example duplicate_single_row :
  (λ steps, map WorkflowStep.targetRowIndex steps)
    <$> duplicateSteps copyId (WorkflowPlan.steps blockPlan) [3%nat; 1%nat]
  = Some [3; 4; 7; 4; 5; 5].
Proof. vm_compute. reflexivity. Qed.

Example trim_unicode_space :
  JS.trim (String (ascii_of_N 194) (String (ascii_of_N 160) "  стоп 42 ")) = "стоп 42".
Proof. reflexivity. Qed.

Example includes_inside_word : JS.includes "nonstop 42" "stop" = true.
Proof. reflexivity. Qed.

Example matchNumber_leftmost : JS.matchNumber "x-12.5.7" = Some "-12.5".
Proof. reflexivity. Qed.

Example matchNumber_dangling_dot : JS.matchNumber "7. next" = Some "7".
Proof. reflexivity. Qed.

Example splitLines_crlf :
  JS.splitLines ("a" +:+ String (ascii_of_N 13) newline +:+ "b" +:+ newline) = ["a"; "b"; ""].
Proof. reflexivity. Qed.

Example stripQuotes_both : JS.stripQuotes (String JS.dquote ("Qty" +:+ String JS.dquote ""))
                           = "Qty".
Proof. reflexivity. Qed.

Example rowIndexOfInput_samples :
  map rowIndexOfInput
      ["1"; "0"; "abc"; ""; "7"; "-3"; " 12px"; "2.9"; "1e3"; "0x1F"; "+5";
       "9007199254740993"; "9007199254740994"]
  = map Number.Int
      [0; 0; 0; 0; 6; 0; 11; 1; 0; 30; 4; 9007199254740991; 9007199254740992].
Proof. vm_compute. reflexivity. Qed.

(** A text of 309 digits is read as [Infinity]. *)
Example rowIndexOfInput_infinity :
  rowIndexOfInput (pretty (2 * 10 ^ 308)) = Number.Infinity false.
Proof. vm_compute. reflexivity. Qed.

(** [round53] agrees with the rounding of the Standard Library's binary64. *)
Example round53_samples :
  Forall (λ n, Number.toFloat (Number.Int (Number.round53 n))
               = binary_normalize 53 1024 n 0 false
               ∧ Number.round53 (Number.round53 n) = Number.round53 n)
         [1; -7; 2 ^ 53; 2 ^ 53 + 1; 2 ^ 53 + 3; - (2 ^ 53 + 1); 2 ^ 54 + 2; 2 ^ 54 + 6;
          10 ^ 21; 10 ^ 22 + 1; 123456789012345678901234567890; 2 ^ 1024 - 2 ^ 970 - 1].
Proof. repeat constructor; vm_compute; reflexivity. Qed.

(** From [2^53] on the round trip of the editor is not exact: row [2^53]
    is shown as [2^53] and saved unchanged becomes [2^53 - 1]; row
    [10^21] is shown with an exponent and saved unchanged becomes 0. *)
Example edit_round_trip_bound :
  rowShown (2 ^ 53) = "9007199254740992"
  ∧ rowIndexOfInput (rowShown (2 ^ 53)) = Number.Int (2 ^ 53 - 1)
  ∧ rowShown (2 ^ 60) = "1152921504606847000"
  ∧ rowShown (10 ^ 21) = "1e+21"
  ∧ rowIndexOfInput (rowShown (10 ^ 21)) = Number.Int 0.
Proof. vm_compute. repeat split. Qed.

Example lower_russian : BasicEngine.lower "СТОП Ёж Stop" = "стоп ёж stop".
Proof. reflexivity. Qed.

Example number_round_trips :
  map (λ s, BasicEngine.numberToString (BasicEngine.parseFloat s))
      ["1"; "0.1"; "12.5"; "-3"; "abc"; "1e21"; "007"; "1.50"; "-0";
       "9007199254740993"; "0.0000001"; "5e-324"; "1.7976931348623159e308"]
  = ["1"; "0.1"; "12.5"; "-3"; "NaN"; "1e+21"; "7"; "1.5"; "0";
     "9007199254740992"; "1e-7"; "5e-324"; "Infinity"].
Proof. vm_compute. reflexivity. Qed.

Example canonical_samples :
  map (isCanonicalNumber (H := basicEngine)) ["1"; "12.5"; "-3"; "1e+21"; "007"; "1.50"; "1e5"; ""; "abc"]
  = [true; true; true; true; false; false; false; false; false].
Proof. vm_compute. reflexivity. Qed.

Example skip_then_finish :
  handleResult (H := basicEngine) Ru qtyPlan (GuidedSession.mkState 1 false "") "Дальше"
  = Some (GuidedSession.mkState 1 false "",
          [Log (userSaid "дальше"); Alert "Маршрут завершен!"; OnClose]).
Proof. reflexivity. Qed.

End Instances.

(** ** Further properties of the pipeline editor *)

Section WizardMore.
Import WorkflowWizard.

Lemma filterIndexFrom_positions {A} (keep : nat → bool) (l : list A) : ∀ pre,
  Forall2 (λ i x, (pre ++ l) !! i = Some x)
          (List.filter keep (seq (length pre) (length l)))
          (filterIndexFrom keep (length pre) l).
Proof.
  induction l as [|x xs IH]; intros pre; simpl; [constructor|].
  specialize (IH (pre ++ [x])).
  rewrite length_app, Nat.add_1_r, <- app_assoc in IH. simpl in IH.
  destruct (keep (length pre)); [|done].
  constructor; [|done]. by apply list_lookup_middle.
Qed.

Lemma filter_seq_sorted (keep : nat → bool) n : ∀ i0,
  StronglySorted lt (List.filter keep (seq i0 n)).
Proof.
  induction n as [|n IH]; intros i0; simpl; [constructor|].
  destruct (keep i0); [|apply IH]. constructor; [apply IH|].
  apply Forall_forall. intros j Hj.
  apply list_elem_of_In, filter_In in Hj as [Hj _]. apply in_seq in Hj. lia.
Qed.

Lemma filterIndex_length_selected {A} (sel : list nat) (l : list A) :
  NoDup sel →
  Forall (λ i, (i < length l)%nat) sel →
  (length (filterIndex (λ i, negb (has sel i)) l) + length sel = length l)%nat.
Proof.
  intros Hnd Hrange. unfold filterIndex.
  pose proof (filterIndexFrom_positions (λ i, negb (has sel i)) l []) as HF2.
  simpl in HF2. rewrite <- (Forall2_length _ _ _ HF2). clear HF2.
  assert (Hsel : length sel = length (List.filter (has sel) (seq 0 (length l)))).
  { apply Permutation_length, NoDup_Permutation; [done| |].
    - apply NoDup_bool_filter, NoDup_ListNoDup, seq_NoDup.
    - intros i. rewrite (list_elem_of_In (List.filter _ _)), filter_In, in_seq, has_spec.
      rewrite Forall_forall in Hrange. split.
      + intros Hi. split; [specialize (Hrange i Hi); lia | done].
      + by intros [_ ?]. }
  rewrite Hsel. remember (seq 0 (length l)) as positions eqn:Hp.
  assert (Hlen : length l = length positions) by (subst; by rewrite length_seq).
  rewrite Hlen. clear.
  induction positions as [|i positions IH]; simpl; [done|].
  destruct (has sel i); simpl; lia.
Qed.

(** X1.  [deleteSelected] with a non-empty selection keeps exactly the steps
    at the positions that are not selected, in their order, and clears the
    selection; with a duplicate-free selection of existing positions the
    number of steps drops by the size of the selection. *)
Theorem deleteSelected_keeps_unselected (st : State) (p : WorkflowPlan.t) :
  plan st = Some p →
  selectedIndices st ≠ [] →
  ∃ kept steps',
    plan (deleteSelected st) = Some (withSteps p steps')
    ∧ selectedIndices (deleteSelected st) = []
    ∧ StronglySorted lt kept
    ∧ (∀ i, i ∈ kept ↔ (i < length (WorkflowPlan.steps p))%nat ∧ i ∉ selectedIndices st)
    ∧ Forall2 (λ i step, WorkflowPlan.steps p !! i = Some step) kept steps'
    ∧ (NoDup (selectedIndices st) →
       Forall (λ i, (i < length (WorkflowPlan.steps p))%nat) (selectedIndices st) →
       (length steps' + length (selectedIndices st) = length (WorkflowPlan.steps p))%nat).
Proof.
  intros Hplan Hne. unfold deleteSelected. rewrite Hplan.
  destruct (selectedIndices st) as [|i0 sel0] eqn:Hsel; [done|].
  set (sel := i0 :: sel0).
  exists (List.filter (λ i, negb (has sel i)) (seq 0 (length (WorkflowPlan.steps p)))).
  eexists. split; [reflexivity|]. split; [reflexivity|]. split_and!.
  - apply filter_seq_sorted.
  - intros i. rewrite list_elem_of_In, filter_In, in_seq, negb_true_iff.
    rewrite <- not_true_iff_false, has_spec. split; intros [? ?]; split; try done; lia.
  - apply (filterIndexFrom_positions _ _ []).
  - apply filterIndex_length_selected.
Qed.

Lemma filterIndexFrom_delete {A} (index : nat) (l : list A) : ∀ i0,
  filterIndexFrom (λ i, negb (i =? index)%nat) i0 l
  = if decide (i0 ≤ index)%nat then delete (index - i0)%nat l else l.
Proof.
  induction l as [|x xs IH]; intros i0; simpl.
  - by destruct (decide _).
  - rewrite IH. destruct (Nat.eqb_spec i0 index) as [->|Hne]; simpl.
    + rewrite Nat.sub_diag.
      destruct (decide (S index ≤ index)%nat); [lia|].
      by destruct (decide (index ≤ index)%nat); [|lia].
    + destruct (decide (i0 ≤ index)%nat).
      * destruct (decide (S i0 ≤ index)%nat); [|lia].
        replace (index - i0)%nat with (S (index - S i0)) by lia. done.
      * by destruct (decide (S i0 ≤ index)%nat); [lia|].
Qed.

(** X2.  [deleteStep] removes the step at the given position and nothing
    else, and clears the selection; a position past the end removes no
    step (the selection is cleared all the same). *)
Theorem deleteStep_removes_one (index : nat) (st : State) (p : WorkflowPlan.t) :
  plan st = Some p →
  plan (deleteStep index st) = Some (withSteps p (delete index (WorkflowPlan.steps p)))
  ∧ selectedIndices (deleteStep index st) = []
  ∧ ((length (WorkflowPlan.steps p) ≤ index)%nat →
     plan (deleteStep index st) = Some (withSteps p (WorkflowPlan.steps p))).
Proof.
  intros Hplan. unfold deleteStep. rewrite Hplan. simpl.
  unfold filterIndex. rewrite filterIndexFrom_delete, decide_True by lia.
  rewrite Nat.sub_0_r. split_and!; try done.
  intros Hge. do 2 f_equal. apply lookup_ge_None_2 in Hge.
  clear -Hge. revert index Hge.
  induction (WorkflowPlan.steps p) as [|x xs IH]; intros [|index] Hge; simpl in *;
    try done. f_equal. by apply IH.
Qed.

(** X3.  [toggleSelection] flips the membership of its position in the
    selection and of no other position; toggling the same position twice
    gives back the same set. *)
Theorem toggleSelection_flips (index : nat) (st : State) :
  (index ∈ selectedIndices (toggleSelection index st) ↔ index ∉ selectedIndices st)
  ∧ (∀ i, i ≠ index →
          (i ∈ selectedIndices (toggleSelection index st) ↔ i ∈ selectedIndices st))
  ∧ (∀ i, i ∈ selectedIndices (toggleSelection index (toggleSelection index st))
          ↔ i ∈ selectedIndices st).
Proof.
  assert (Hone : ∀ st' : State,
    (index ∈ selectedIndices (toggleSelection index st') ↔ index ∉ selectedIndices st')
    ∧ (∀ i, i ≠ index →
            (i ∈ selectedIndices (toggleSelection index st') ↔ i ∈ selectedIndices st'))).
  { intros st'. unfold toggleSelection. simpl.
    destruct (has (selectedIndices st') index) eqn:Hhas.
    - apply has_spec in Hhas. split.
      + rewrite list_elem_of_In, filter_In, Nat.eqb_refl. simpl.
        split; [by intros [_ ?] | done].
      + intros i Hi. rewrite !list_elem_of_In, filter_In.
        destruct (Nat.eqb_spec i index); [done|]. simpl. tauto.
    - assert (Hnot : index ∉ selectedIndices st').
      { intros Hin. apply has_spec in Hin. congruence. }
      split.
      + rewrite elem_of_app, list_elem_of_singleton. tauto.
      + intros i Hi. rewrite elem_of_app, list_elem_of_singleton. tauto. }
  destruct (Hone st) as [H1 H2]. destruct (Hone (toggleSelection index st)) as [H3 H4].
  split_and!; try done.
  intros i. destruct (decide (i = index)) as [->|Hne].
  - rewrite H3, H1. split; [|tauto].
    intros Hnn. destruct (decide (index ∈ selectedIndices st)); tauto.
  - by rewrite H4, H2.
Qed.

(** X5.  In a state whose selection is a duplicate-free set of existing
    positions, [duplicateSelected] does not throw: it yields a state, with
    the selection cleared and the existing steps kept as a prefix. *)
Theorem duplicateSelected_never_throws (newId : nat → string) (st : State) :
  selectionValid st →
  ∃ st',
    duplicateSelected newId st = Some st'
    ∧ selectedIndices st' = []
    ∧ ∀ p, plan st = Some p →
           ∃ dups, plan st' = Some (withSteps p (WorkflowPlan.steps p ++ dups)).
Proof.
  intros [Hnd Hall]. unfold duplicateSelected.
  destruct (plan st) as [p|] eqn:Hp.
  - destruct (selectedIndices st) as [|i sel] eqn:Hsel.
    + exists st. split; [done|]. split; [done|].
      intros p' [= <-]. exists []. rewrite app_nil_r, Hp.
      by destruct p.
    + assert (Hrange : Forall (λ j, (j < length (WorkflowPlan.steps p))%nat) (i :: sel)).
      { eapply Forall_impl; [exact Hall|]. intros j (p' & Hp' & Hlt). by simplify_eq. }
      unfold duplicateSteps.
      assert (Hsome : is_Some (mapM (λ j, WorkflowPlan.steps p !! j) (sortIndices (i :: sel)))).
      { apply mapM_is_Some. rewrite sortIndices_perm.
        eapply Forall_impl; [exact Hrange|]. intros j Hj. by apply lookup_lt_is_Some. }
      destruct Hsome as [selected ->]. simpl.
      destruct (map WorkflowStep.targetRowIndex selected) as [|r rs]; simpl.
      * eexists. split; [reflexivity|]. split; [done|].
        intros p' [= <-]. exists []. by rewrite app_nil_r.
      * eexists. split; [reflexivity|]. split; [done|].
        intros p' [= <-]. eexists. reflexivity.
  - destruct (selectedIndices st) as [|i sel] eqn:Hsel.
    + exists st. by rewrite Hsel.
    + inversion Hall as [|? ? (p & Hp' & _) _]; subst. congruence.
Qed.

Lemma spliceInsert_perm {A} (j : nat) (x : A) (l : list A) :
  spliceInsert j x l ≡ₚ x :: l.
Proof.
  unfold spliceInsert. rewrite <- Permutation_middle. by rewrite take_drop.
Qed.

(** X8.  A drop never loses or repeats a step: the reordered steps are a
    permutation of the steps, and the moved step sits at the drop position,
    or at the end when the drop position is the last one or beyond.
    Dropping a step on its own position changes nothing. *)
Theorem reorderStep_permutes (steps steps' : list WorkflowStep.t) (i j : nat) :
  reorderStep steps i j = Some steps' →
  steps' ≡ₚ steps
  ∧ length steps' = length steps
  ∧ steps' !! (j `min` (length steps - 1))%nat = steps !! i
  ∧ reorderStep steps i i = Some steps.
Proof.
  unfold reorderStep. destruct (steps !! i) as [x|] eqn:Hx; [|done].
  intros [= <-].
  assert (Hlt : (i < length steps)%nat) by (by eapply lookup_lt_Some).
  assert (Hdel : x :: delete i steps ≡ₚ steps).
  { rewrite delete_take_drop. rewrite Permutation_middle.
    by rewrite take_drop_middle. }
  split_and!.
  - by rewrite spliceInsert_perm.
  - by rewrite (Permutation_length (spliceInsert_perm _ _ _)),
         (Permutation_length Hdel).
  - unfold spliceInsert.
    assert (Hlen : length (take j (delete i steps)) = (j `min` (length steps - 1))%nat).
    { rewrite length_take, length_delete by eauto. lia. }
    rewrite <- Hlen. by rewrite list_lookup_middle.
  - f_equal. by apply spliceInsert_delete.
Qed.

End WizardMore.

(** ** Further properties of the guided session *)

Section SessionMore.
Import GuidedSession.
Context `{Engine}.
Local Arguments String.append !_ _ : simpl nomatch.

Ltac absent_effect H :=
  repeat (apply elem_of_cons in H as [H|H]; [discriminate H|]);
  by apply elem_of_nil in H.

(** What one utterance does when the cursor is on a step: nothing (empty
    text), or close the session (a stop word, or the last step), or move the
    cursor one step forward.  A write targets the row of a step of the
    plan. *)
Lemma handleResult_cases language plan st text :
  (currentStepIndex st < length (WorkflowPlan.steps plan))%nat →
  ∃ st' effs,
    handleResult language plan st text = Some (st', effs)
    ∧ (length (List.filter isWrite effs) ≤ 1)%nat
    ∧ Forall (targetsPlan plan) effs
    ∧ ((toLowerCase (JS.trim text) = "" ∧ st' = st ∧ effs = [])
       ∨ (toLowerCase (JS.trim text) ≠ ""
          ∧ (existsb (λ w, JS.includes (toLowerCase (JS.trim text)) w)
                     (stopWords language) = true
             ∨ S (currentStepIndex st) = length (WorkflowPlan.steps plan))
          ∧ st' = st ∧ existsb isClose effs = true)
       ∨ (toLowerCase (JS.trim text) ≠ ""
          ∧ existsb (λ w, JS.includes (toLowerCase (JS.trim text)) w)
                    (stopWords language) = false
          ∧ effs ≠ []
          ∧ existsb isClose effs = false
          ∧ st' = mkState (S (currentStepIndex st)) (isListening st) ""
          ∧ (S (currentStepIndex st) < length (WorkflowPlan.steps plan))%nat)).
Proof.
  intros Hin. unfold handleResult.
  destruct (String.eqb_spec (toLowerCase (JS.trim text)) "") as [Hempty|Hne].
  { eexists _, _. split; [reflexivity|]. split; [simpl; lia|].
    split; [constructor|]. by left. }
  destruct (existsb _ (stopWords language)) eqn:Hstop.
  { eexists _, _. split; [reflexivity|]. split; [simpl; lia|].
    split; [by repeat constructor|]. right; left. split_and!; auto. }
  assert (Hnext : ∀ pre, (length (List.filter isWrite pre) ≤ 1)%nat →
            Forall (λ e, isClose e = false) pre →
            Forall (targetsPlan plan) pre →
            let '(st', effs) := nextStep language plan st in
            (length (List.filter isWrite (pre ++ effs)) ≤ 1)%nat
            ∧ Forall (targetsPlan plan) (pre ++ effs)
            ∧ ((S (currentStepIndex st) = length (WorkflowPlan.steps plan)
                ∧ st' = st ∧ existsb isClose (pre ++ effs) = true)
               ∨ (existsb isClose (pre ++ effs) = false
                  ∧ st' = mkState (S (currentStepIndex st)) (isListening st) ""
                  ∧ (S (currentStepIndex st) < length (WorkflowPlan.steps plan))%nat))).
  { intros pre Hpre Hclose Htargets. unfold nextStep.
    assert (Hpre_close : existsb isClose pre = false).
    { clear -Hclose. induction Hclose as [|e l He _ IH]; [done|]. simpl. by rewrite He. }
    destruct (Z.ltb_spec (Z.of_nat (currentStepIndex st))
                         (Z.of_nat (length (WorkflowPlan.steps plan)) - 1)).
    - rewrite app_nil_r. split; [done|]. split; [done|]. right. split_and!; [done|done|lia].
    - split; [rewrite List.filter_app, length_app; simpl; lia|].
      split; [apply Forall_app; split; [done | by repeat constructor]|].
      left. split; [lia|]. split; [done|]. rewrite existsb_app. simpl.
      by rewrite orb_true_r. }
  destruct (existsb _ (nextWords language)).
  { specialize (Hnext [Log (userSaid (toLowerCase (JS.trim text)))]).
    destruct (nextStep language plan st) as [st' effs].
    destruct Hnext as (Hw & Htargets & Hcases);
      [simpl; lia | by repeat constructor | by repeat constructor |].
    eexists _, _. split; [reflexivity|]. split; [exact Hw|]. split; [exact Htargets|].
    right. destruct Hcases as [(? & -> & ?) | (? & ? & ?)]; [left | right];
      split_and!; auto. }
  unfold currentStep.
  destruct (lookup_lt_is_Some_2 _ _ Hin) as [step Hstep]. rewrite Hstep. simpl.
  specialize (Hnext [Log (userSaid (toLowerCase (JS.trim text)));
                     OnValueReceived (WorkflowStep.targetRowIndex step)
                       (WorkflowStep.targetColumnId step)
                       (captureValue (WorkflowStep.expectedType step)
                                     (toLowerCase (JS.trim text)))]).
  destruct (nextStep language plan st) as [st' effs].
  destruct Hnext as (Hw & Htargets & Hcases); [simpl; lia | by repeat constructor | |].
  { constructor; [done|]. constructor; [|constructor]. simpl.
    exists step. split; [by eapply list_elem_of_lookup_2 | done]. }
  eexists _, _. split; [reflexivity|]. split; [exact Hw|]. split; [exact Htargets|].
  right. destruct Hcases as [(? & -> & ?) | (? & ? & ?)]; [left | right];
    split_and!; auto.
Qed.

(** X9.  With the cursor on a step, [handleResult] does not throw and an
    utterance causes at most one table write.  An empty text (after
    trimming) changes nothing and has no effect at all.  Any other text
    closes the session, the state unchanged, when it holds a stop word or
    when the cursor is on the last step; otherwise the session stays open
    and the cursor moves forward by exactly one step, onto an existing step,
    the transcript cleared. *)
Theorem handleResult_one_step (language : Language) (plan : WorkflowPlan.t)
    (st : State) (text : string) :
  (currentStepIndex st < length (WorkflowPlan.steps plan))%nat →
  ∃ st' effs,
    let cleanText := toLowerCase (JS.trim text) in
    let stop := existsb (λ w, JS.includes cleanText w) (stopWords language) in
    handleResult language plan st text = Some (st', effs)
    ∧ (length (List.filter isWrite effs) ≤ 1)%nat
    ∧ (currentStepIndex st' < length (WorkflowPlan.steps plan))%nat
    ∧ (cleanText = "" → st' = st ∧ effs = [])
    ∧ (cleanText ≠ "" →
       stop = true ∨ S (currentStepIndex st) = length (WorkflowPlan.steps plan) →
       st' = st ∧ existsb isClose effs = true)
    ∧ (cleanText ≠ "" →
       stop = false →
       (S (currentStepIndex st) < length (WorkflowPlan.steps plan))%nat →
       st' = mkState (S (currentStepIndex st)) (isListening st) ""
       ∧ existsb isClose effs = false).
Proof.
  intros Hin.
  destruct (handleResult_cases language plan st text Hin)
    as (st' & effs & Hres & Hw & _ & Hcases).
  exists st', effs. cbv zeta. split; [done|]. split; [done|].
  destruct Hcases as [(Hempty & -> & ->)
                     | [(Hne & Hwhy & -> & Hc)
                       | (Hne & Hstop & Hne' & Hc & -> & Hlt)]].
  - split_and!; try done.
  - split_and!; try done. intros _ Hstop Hlt. destruct Hwhy as [Hs | Hlast]; [congruence | lia].
  - split_and!; try done. intros _ [Hs | Hlast]; [congruence | lia].
Qed.

(** X10.  An utterance with a skip word and no stop word writes nothing,
    whatever else it holds: when a step follows the current one the cursor
    moves onto it, the transcript is cleared and the session stays open;
    when none follows the state is unchanged and the session is closed. *)
Theorem skip_word_never_writes (language : Language) (plan : WorkflowPlan.t)
    (st : State) (text w : string) :
  (∀ s, s ∈ stopWords language → JS.includes (toLowerCase (JS.trim text)) s = false) →
  w ∈ nextWords language →
  JS.includes (toLowerCase (JS.trim text)) w = true →
  ∃ st' effs,
    handleResult language plan st text = Some (st', effs)
    ∧ Forall (λ e, isWrite e = false) effs
    ∧ ((S (currentStepIndex st) < length (WorkflowPlan.steps plan))%nat →
       st' = mkState (S (currentStepIndex st)) (isListening st) ""
       ∧ existsb isClose effs = false)
    ∧ ((length (WorkflowPlan.steps plan) ≤ S (currentStepIndex st))%nat →
       st' = st ∧ existsb isClose effs = true).
Proof.
  intros Hstop Hw Hinc. unfold handleResult.
  assert (Hne : toLowerCase (JS.trim text) ≠ "").
  { intros Heq. rewrite Heq in Hinc. destruct language; simpl in Hw;
      repeat (apply elem_of_cons in Hw as [->|Hw]; [discriminate Hinc|]);
      by apply elem_of_nil in Hw. }
  destruct (String.eqb_spec (toLowerCase (JS.trim text)) ""); [done|].
  assert (Hs : existsb (λ s, JS.includes (toLowerCase (JS.trim text)) s)
                       (stopWords language) = false).
  { apply not_true_iff_false. intros (s & Hin & Hs)%existsb_exists.
    apply list_elem_of_In in Hin. rewrite (Hstop s Hin) in Hs. done. }
  assert (Hn : existsb (λ s, JS.includes (toLowerCase (JS.trim text)) s)
                       (nextWords language) = true).
  { apply existsb_exists. exists w. by rewrite <- list_elem_of_In. }
  rewrite Hs, Hn. unfold nextStep.
  destruct (Z.ltb_spec (Z.of_nat (currentStepIndex st))
                       (Z.of_nat (length (WorkflowPlan.steps plan)) - 1)).
  - eexists _, _. split; [reflexivity|]. split; [by repeat constructor|].
    split; [done | lia].
  - eexists _, _. split; [reflexivity|]. split; [by repeat constructor|].
    split; [lia | done].
Qed.

Lemma append_nil_r s : s +:+ "" = s.
Proof. induction s as [|a s IH]; simpl; [done | by rewrite IH]. Qed.

Lemma append_assoc s1 s2 s3 : (s1 +:+ s2) +:+ s3 = s1 +:+ s2 +:+ s3.
Proof. induction s1 as [|a s1 IH]; simpl; [done | by rewrite IH]. Qed.

Lemma allDigits_cons a s :
  allDigits (String a s) = JS.isDigit a && allDigits s.
Proof. done. Qed.

Lemma hasDigit_cons a s :
  hasDigit (String a s) = JS.isDigit a || hasDigit s.
Proof. done. Qed.

Lemma spanDigits_spec s :
  s = (JS.spanDigits s).1 +:+ (JS.spanDigits s).2
  ∧ allDigits (JS.spanDigits s).1 = true
  ∧ match (JS.spanDigits s).2 with
    | String c _ => JS.isDigit c = false
    | EmptyString => True
    end.
Proof.
  induction s as [|a s IH]; [done|]. cbn [JS.spanDigits].
  destruct (JS.isDigit a) eqn:Ha; [|done].
  destruct (JS.spanDigits s) as [d r]. destruct IH as (Hs & Hd & Hr). simpl in *.
  split_and!; [by rewrite <- Hs | by rewrite allDigits_cons, Ha | done].
Qed.

Lemma spanDigits_app d r :
  allDigits d = true →
  match r with String c _ => JS.isDigit c = false | EmptyString => True end →
  JS.spanDigits (d +:+ r) = (d, r).
Proof.
  intros Hd Hr. induction d as [|a d IH]; simpl.
  - destruct r as [|c r]; [done|]. cbn [JS.spanDigits]. by rewrite Hr.
  - rewrite allDigits_cons in Hd. apply andb_true_iff in Hd as [Ha Hd].
    rewrite Ha, IH by done. done.
Qed.

Lemma isUnsignedNumeral_digits d :
  allDigits d = true → d ≠ "" → isUnsignedNumeral d = true.
Proof.
  intros Hd Hne. unfold isUnsignedNumeral.
  rewrite <- (append_nil_r d) at 1. rewrite spanDigits_app by done.
  by destruct d.
Qed.

Lemma isUnsignedNumeral_fraction d f :
  allDigits d = true → d ≠ "" → allDigits f = true → f ≠ "" →
  isUnsignedNumeral (d +:+ String "." f) = true.
Proof.
  intros Hd Hne Hf Hfne. unfold isUnsignedNumeral.
  rewrite spanDigits_app by done. destruct d; [done|].
  rewrite Hf. simpl. by destruct f.
Qed.

(** What the anchored pattern returns is a numeral that starts the text and
    starts with a digit. *)
Lemma matchDecimalHere_sound s m :
  JS.matchDecimalHere s = Some m →
  (∃ after, s = m +:+ after)
  ∧ isUnsignedNumeral m = true
  ∧ ∃ c m', m = String c m' ∧ JS.isDigit c = true.
Proof.
  unfold JS.matchDecimalHere.
  destruct (spanDigits_spec s) as (Hs & Hd & Hr).
  destruct (JS.spanDigits s) as [d r]. simpl in *.
  destruct d as [|c d]; [done|].
  assert (Hc : JS.isDigit c = true).
  { rewrite allDigits_cons in Hd. by apply andb_true_iff in Hd as [? _]. }
  assert (Hplain : (∃ after, s = String c d +:+ after)
                   ∧ isUnsignedNumeral (String c d) = true
                   ∧ ∃ c0 m', String c d = String c0 m' ∧ JS.isDigit c0 = true).
  { split_and!; [by exists r | by apply isUnsignedNumeral_digits | by exists c, d]. }
  destruct r as [|dot r']; [by intros [= <-]|].
  destruct (Ascii.eqb_spec dot ".") as [->|_]; [|by intros [= <-]].
  destruct (spanDigits_spec r') as (Hs' & Hf & Hr').
  destruct (JS.spanDigits r') as [f r'']. simpl in *.
  destruct f as [|e f]; [by intros [= <-]|]. intros [= <-]. split_and!.
  - exists r''. rewrite Hs, Hs'. simpl. f_equal.
    by rewrite append_assoc.
  - by apply (isUnsignedNumeral_fraction (String c d) (String e f)).
  - by exists c, (d +:+ String "." (String e f)).
Qed.

Lemma matchNumberHere_sound s m :
  JS.matchNumberHere s = Some m →
  (∃ after, s = m +:+ after) ∧ isNumeral m = true ∧ m ≠ "".
Proof.
  unfold JS.matchNumberHere. destruct s as [|a s]; [done|].
  assert (Hplain : JS.matchDecimalHere (String a s) = Some m →
                   (∃ after, String a s = m +:+ after) ∧ isNumeral m = true ∧ m ≠ "").
  { intros Hm. destruct (matchDecimalHere_sound _ _ Hm) as (Hafter & Hnum & c & m' & -> & Hc).
    split_and!; [done| |done]. unfold isNumeral.
    destruct (Ascii.eqb_spec c "-") as [->|_]; [done | done]. }
  destruct (Ascii.eqb_spec a "-") as [->|_]; [|done].
  destruct (JS.matchDecimalHere s) as [m0|] eqn:Hm0; [|done].
  intros [= <-]. destruct (matchDecimalHere_sound _ _ Hm0) as ([after ->] & Hnum & _).
  split_and!; [by exists after | done | done].
Qed.

(** The first match of the pattern: a numeral inside the text, with no
    digit before it. *)
Lemma matchNumber_sound s m :
  JS.matchNumber s = Some m →
  (∃ before after, s = before +:+ m +:+ after ∧ hasDigit before = false)
  ∧ isNumeral m = true ∧ m ≠ "".
Proof.
  induction s as [|a s IH]; [done|]. cbn [JS.matchNumber].
  destruct (JS.matchNumberHere (String a s)) as [m0|] eqn:Hhere.
  - intros [= <-]. destruct (matchNumberHere_sound _ _ Hhere) as ([after Hs] & Hnum & Hne).
    split_and!; [|done|done]. by exists "", after.
  - intros Hm. destruct (IH Hm) as ((before & after & -> & Hb) & Hnum & Hne).
    split_and!; [|done|done]. exists (String a before), after. split; [done|].
    rewrite hasDigit_cons, Hb, orb_false_r.
    destruct (JS.isDigit a) eqn:Ha; [|done].
    apply matchNumberHere_None in Hhere.
    destruct (matchDecimalHere_digit a (before +:+ m +:+ after) Ha) as [? ?]. congruence.
Qed.

(** X11.  For a number step, when the cleaned text has a digit the value
    written is a numeral (optional minus, digits, optionally a period and
    digits) that occurs in the text after its first comma was replaced,
    with no digit before it; when the text has no digit, the value is the
    cleaned text itself. *)
Theorem captureValue_number_shape (cleanText : string) :
  if hasDigit cleanText
  then isNumeral (captureValue ExpectNumber cleanText) = true
       ∧ ∃ before after,
           JS.replace cleanText "," "."
           = before +:+ captureValue ExpectNumber cleanText +:+ after
           ∧ hasDigit before = false
  else captureValue ExpectNumber cleanText = cleanText.
Proof.
  destruct (hasDigit cleanText) eqn:Hd.
  - unfold captureValue.
    destruct (JS.matchNumber (JS.replace cleanText "," ".")) as [m|] eqn:Hm.
    + by destruct (matchNumber_sound _ _ Hm) as (? & ? & _).
    + apply matchNumber_None in Hm. rewrite hasDigit_replace_comma in Hm. congruence.
  - by apply captureValue_no_digit.
Qed.

Lemma captureValue_nonempty expected cleanText :
  cleanText ≠ "" → captureValue expected cleanText ≠ "".
Proof.
  intros Hne. destruct expected; [|done]. unfold captureValue.
  destruct (JS.matchNumber _) as [m|] eqn:Hm; [|done].
  by destruct (matchNumber_sound _ _ Hm) as (_ & _ & ?).
Qed.

(** X12.  The session never writes an empty value: whatever [handleResult]
    passes to [onValueReceived] has at least one character. *)
Theorem session_never_writes_empty (language : Language) (plan : WorkflowPlan.t)
    (st st' : State) (text : string) (effs : list Effect)
    (rowIndex : Z) (colId value : string) :
  handleResult language plan st text = Some (st', effs) →
  OnValueReceived rowIndex colId value ∈ effs →
  (0 < String.length value)%nat.
Proof.
  unfold handleResult.
  pose proof (nextStep_advances language plan st) as Hnext.
  destruct (nextStep language plan st) as [st1 effs1]. destruct Hnext as [Hnw _].
  assert (Hno : ∀ r c v, OnValueReceived r c v ∉ effs1).
  { intros r c v Hin. rewrite Forall_forall in Hnw. by specialize (Hnw _ Hin). }
  intros Hres Hin.
  destruct (String.eqb_spec (toLowerCase (JS.trim text)) "") as [|Hne];
    [injection Hres as <- <-; absent_effect Hin|].
  destruct (existsb _ (stopWords language)); [injection Hres as <- <-; absent_effect Hin|].
  destruct (existsb _ (nextWords language)).
  { injection Hres as <- <-. apply elem_of_cons in Hin as [?|Hin]; [done|].
    by apply Hno in Hin. }
  destruct (currentStep plan st) as [step|]; [|done]. simpl in Hres.
  injection Hres as <- <-.
  apply elem_of_cons in Hin as [?|Hin]; [done|].
  apply elem_of_cons in Hin as [Heq|Hin]; [|by apply Hno in Hin].
  injection Heq as -> -> ->.
  pose proof (captureValue_nonempty (WorkflowStep.expectedType step) _ Hne) as Hv.
  destruct (captureValue _ _); [done | simpl; lia].
Qed.

Lemma deliver_saved now effs : ∀ app,
  (length (App.saved (foldl (deliver now) app effs))
   ≤ length (App.saved app) + length (List.filter isWrite effs))%nat.
Proof.
  induction effs as [|e effs IH]; intros app; simpl; [lia|].
  etrans; [apply IH|]. destruct e; simpl; try lia.
  unfold App.handleGuidedValue. destruct (App.currentTable app); simpl; [|lia].
  rewrite length_app. simpl. lia.
Qed.

(** A table with a row at every position is rendered. *)
Lemma planFits_renders plan app : planFits plan app → App.renders app = true.
Proof.
  intros Hfits. unfold App.renders. unfold planFits in Hfits.
  destruct (App.currentTable app) as [table|] eqn:Htable; [|done].
  specialize (Hfits table eq_refl).
  destruct Hfits as [Hdense _].
  apply forallb_forall. intros s Hin. apply list_elem_of_In in Hin.
  rewrite Forall_forall in Hdense. by destruct (Hdense s Hin) as [r ->].
Qed.

(** Writes to rows of the plan keep the plan fitting the table. *)
Lemma deliver_fits plan now effs : ∀ app,
  planFits plan app →
  Forall (targetsPlan plan) effs →
  planFits plan (foldl (deliver now) app effs).
Proof.
  induction effs as [|e effs IH]; intros app Hfits Htargets; [done|].
  inversion Htargets as [|? ? He Hrest]; subst. simpl. apply IH; [|done].
  destruct e as [msg|rowIndex colId value|msg|]; try done. simpl.
  destruct He as (step & Hstep & <-).
  unfold App.handleGuidedValue.
  destruct (App.currentTable app) as [table|] eqn:Htable; [|done].
  destruct (Hfits table Htable) as [Hdense Hrows].
  intros table' [= <-]. simpl. split.
  - apply guidedRows_dense; [done|]. rewrite Forall_forall in Hrows. by apply Hrows.
  - eapply Forall_impl; [exact Hrows|]. intros step' Hle. simpl in Hle.
    pose proof (length_guidedRows_ge (TableData.columns table) (TableData.rows table)
                  (WorkflowStep.targetRowIndex step) colId value).
    lia.
Qed.

Lemma saidStop_empty language text :
  toLowerCase (JS.trim text) = "" → saidStop language text = false.
Proof. unfold saidStop. intros ->. by destruct language. Qed.

Lemma spoken_cons text more :
  spoken (text :: more)
  = ((if String.eqb (toLowerCase (JS.trim text)) "" then 0 else 1) + spoken more)%nat.
Proof. unfold spoken. simpl. by destruct (String.eqb _ ""). Qed.

(** X13.  A session whose plan fits the table (a row at every position, no
    step beyond the first free position), started with the cursor on a step,
    never throws, however many final transcripts it is fed: neither a
    handler nor a render of the table fails.  It ends with the cursor on a
    step, it has saved the table at most once per transcript, and the plan
    still fits the table.  When it ends open, no transcript held a stop word
    and the cursor has moved forward by the number of transcripts that were
    not empty; when it ends closed, a transcript held a stop word or these
    transcripts reached the last step.  (A plan that skips rows does throw:
    [session_skipping_rows_throws].) *)
Theorem runSession_safe (language : Language) (plan : WorkflowPlan.t) (now : Z)
    (texts : list string) (st : State) (app : App.State) :
  (currentStepIndex st < length (WorkflowPlan.steps plan))%nat →
  planFits plan app →
  ∃ closed st' app',
    runSession language plan now st app texts = Some (closed, st', app')
    ∧ (currentStepIndex st ≤ currentStepIndex st' < length (WorkflowPlan.steps plan))%nat
    ∧ (length (App.saved app') ≤ length (App.saved app) + length texts)%nat
    ∧ planFits plan app'
    ∧ (closed = false →
       currentStepIndex st' = (currentStepIndex st + spoken texts)%nat
       ∧ Forall (λ text, saidStop language text = false) texts)
    ∧ (closed = true →
       Exists (λ text, saidStop language text = true) texts
       ∨ (length (WorkflowPlan.steps plan) ≤ currentStepIndex st + spoken texts)%nat).
Proof.
  revert st app. induction texts as [|text more IH]; intros st app Hin Hfits.
  { exists false, st, app. simpl. split; [done|]. split; [lia|]. split; [lia|].
    split; [done|]. split; [|done]. intros _. split; [unfold spoken; simpl; lia | constructor]. }
  cbn [runSession]. rewrite spoken_cons.
  destruct (handleResult_cases language plan st text Hin)
    as (st1 & effs & -> & Hw & Htargets & Hcases). simpl.
  pose proof (deliver_saved now effs app) as Hsaved.
  pose proof (deliver_fits plan now effs app Hfits Htargets) as Hfits1.
  rewrite (planFits_renders plan _ Hfits1).
  destruct Hcases as [(Hempty & -> & ->)
                     | [(Hne & Hwhy & -> & Hc)
                       | (Hne & Hstop & _ & Hc & -> & Hlt)]].
  - simpl. destruct (IH st app Hin Hfits)
      as (closed & st' & app' & Hrun & Hidx & Hs & Hfits' & Hopen & Hclosed).
    exists closed, st', app'. rewrite Hempty. simpl.
    split; [done|]. split; [done|]. split; [lia|]. split; [done|]. split.
    + intros Hcl. destruct (Hopen Hcl) as [? ?]. split; [done|].
      constructor; [by apply saidStop_empty | done].
    + intros Hcl. destruct (Hclosed Hcl) as [?|?]; [left; by constructor | by right].
  - rewrite Hc. eexists _, _, _. split; [reflexivity|]. split; [lia|].
    split; [simpl in *; lia|]. split; [done|]. split; [done|]. intros _.
    destruct Hwhy as [Hs | Hlast]; [left; by constructor|]. right.
    apply String.eqb_neq in Hne. rewrite Hne. lia.
  - rewrite Hc.
    destruct (IH (mkState (S (currentStepIndex st)) (isListening st) "")
                 (foldl (deliver now) app effs))
      as (closed & st' & app' & Hrun & Hidx & Hs & Hfits' & Hopen & Hclosed);
      [simpl; lia | done |].
    simpl in Hidx, Hopen, Hclosed.
    exists closed, st', app'. apply String.eqb_neq in Hne. rewrite Hne.
    split; [done|]. split; [lia|]. split; [simpl in *; lia|]. split; [done|]. split.
    + intros Hcl. destruct (Hopen Hcl) as [? ?]. split; [lia|]. by constructor.
    + intros Hcl. destruct (Hclosed Hcl) as [?|?]; [left; by constructor | right; lia].
Qed.

(** X14.  A session whose plan fits the table closes after as many
    non-empty final transcripts as there are steps from the cursor on: each
    of them closes the session or moves the cursor one step forward, the
    last step closes it, and no handler or render throws on the way.  When
    no transcript holds a stop word the session is closed on the last
    step. *)
Theorem runSession_completes (language : Language) (plan : WorkflowPlan.t) (now : Z)
    (texts : list string) (st : State) (app : App.State) :
  (currentStepIndex st < length (WorkflowPlan.steps plan))%nat →
  planFits plan app →
  Forall (λ text, toLowerCase (JS.trim text) ≠ "") texts →
  (length (WorkflowPlan.steps plan) - currentStepIndex st ≤ length texts)%nat →
  ∃ st' app',
    runSession language plan now st app texts = Some (true, st', app')
    ∧ planFits plan app'
    ∧ (Forall (λ text, saidStop language text = false) texts →
       S (currentStepIndex st') = length (WorkflowPlan.steps plan)).
Proof.
  revert st app. induction texts as [|text more IH]; intros st app Hin Hfits Heff Hlen.
  { simpl in Hlen. lia. }
  inversion Heff as [|? ? Htext Hmore]; subst.
  cbn [runSession].
  destruct (handleResult_cases language plan st text Hin)
    as (st1 & effs & -> & Hw & Htargets & Hcases). simpl.
  pose proof (deliver_fits plan now effs app Hfits Htargets) as Hfits1.
  rewrite (planFits_renders plan _ Hfits1).
  destruct Hcases as [(? & _) | [(_ & Hwhy & -> & Hc) | (_ & _ & _ & Hc & -> & Hlt)]];
    [done| |].
  - rewrite Hc. eexists _, _. split; [reflexivity|]. split; [done|].
    intros Hnostop. inversion Hnostop as [|? ? Hhead _]; subst.
    destruct Hwhy as [Hs | Hlast]; [|done]. unfold saidStop in Hhead. congruence.
  - rewrite Hc.
    destruct (IH (mkState (S (currentStepIndex st)) (isListening st) "")
                 (foldl (deliver now) app effs))
      as (st' & app' & Hrun & Hfits' & Hlast); [simpl; lia | done | done | simpl in *; lia |].
    exists st', app'. split; [done|]. split; [done|].
    intros Hnostop. apply Hlast. by inversion Hnostop.
Qed.

End SessionMore.

(** ** Further properties of the table updates *)

Section TableMore.
Import App.






(** X17.  On an existing row a guided write leaves the same table as typing
    the value into the cell by hand; at the first free position it leaves
    the same table as pressing the add-row button and then typing the
    value into the new row. *)
Theorem guided_write_as_manual_edit (now1 now2 : Z) (st : State) (table : TableData.t)
    (colId val : string) :
  currentTable st = Some table →
  (∀ i r,
     TableData.rows table !! i = Some (Row r) →
     currentTable (handleGuidedValue now1 now2 (Z.of_nat i) colId val st)
     = currentTable (handleManualCellChange now1 now2 i colId val st))
  ∧ currentTable
      (handleGuidedValue now1 now2 (Z.of_nat (length (TableData.rows table))) colId val st)
    = currentTable
        (handleManualCellChange now1 now2 (length (TableData.rows table)) colId val
           (addRowClick st)).
Proof.
  intros Htable. split.
  - intros i r Hrow. unfold handleGuidedValue, handleManualCellChange.
    rewrite Htable. simpl. do 2 f_equal.
    rewrite guidedRows_unfold by lia. rewrite Nat2Z.id, Hrow.
    unfold manualRows. by rewrite (copyRows_row _ _ _ Hrow).
  - unfold handleGuidedValue, handleManualCellChange, addRowClick.
    rewrite Htable. simpl. unfold withRows. simpl. do 2 f_equal.
    set (rows := TableData.rows table). set (E := emptyRow (TableData.columns table)).
    rewrite guidedRows_unfold by lia. rewrite Nat2Z.id.
    rewrite (lookup_ge_None_2 rows (length rows)) by lia.
    unfold manualRows.
    assert (Hcopy : copyRows (copyRows rows ++ [Row E]) = copyRows rows ++ [Row E]).
    { unfold copyRows at 1. rewrite map_app. fold (copyRows (copyRows rows)).
      by rewrite copyRows_idemp. }
    rewrite Hcopy. rewrite lookup_app_r by (rewrite length_copyRows; lia).
    rewrite length_copyRows, Nat.sub_diag. simpl.
    apply list_eq. intros k.
    destruct (decide (k = length rows)) as [->|Hk].
    + by rewrite !arraySet_lookup_eq.
    + rewrite !arraySet_lookup_ne by done.
      rewrite length_arraySet, length_app, length_copyRows. simpl.
      repeat case_decide; try lia; try done.
      by rewrite lookup_app_l by (rewrite length_copyRows; lia).
Qed.

Lemma applyRowUpdate_keeps_row action rows u j r :
  rows !! j = Some (Row r) →
  ∃ r', applyRowUpdate action rows u !! j = Some (Row r')
        ∧ ∀ k, is_Some (r !! k) → is_Some (r' !! k).
Proof.
  intros Hrow. unfold applyRowUpdate.
  destruct ((RowUpdate.rowIndex u =? -1) || _).
  { exists r. split; [|done]. rewrite lookup_app_l; [done|]. by eapply lookup_lt_Some. }
  destruct ((0 <=? RowUpdate.rowIndex u) && _) eqn:Hin; [|by exists r].
  apply andb_true_iff in Hin as [Hge%Z.leb_le Hlt%Z.ltb_lt].
  destruct (decide (j = Z.to_nat (RowUpdate.rowIndex u))) as [->|Hne].
  - eexists. split; [apply list_lookup_insert_eq; lia|].
    intros k Hk. rewrite Hrow. simpl. rewrite lookup_union.
    destruct (RowUpdate.updates u !! k), (r !! k); simpl; eauto.
  - exists r. split; [|done]. by rewrite list_lookup_insert_ne.
Qed.

Lemma applyRowUpdates_keeps_row result : ∀ rows j r,
  rows !! j = Some (Row r) →
  ∃ r', applyRowUpdates result rows !! j = Some (Row r')
        ∧ ∀ k, is_Some (r !! k) → is_Some (r' !! k).
Proof.
  unfold applyRowUpdates. generalize (VoiceUpdateResult.action result). intros action.
  induction (VoiceUpdateResult.rowUpdates result) as [|u us IH]; intros rows j r Hrow; simpl.
  - by exists r.
  - destruct (applyRowUpdate_keeps_row action rows u j r Hrow) as (r1 & Hr1 & Hmono).
    destruct (IH _ _ _ Hr1) as (r' & Hr' & Hmono').
    exists r'. split; [done|]. intros k Hk. by apply Hmono', Hmono.
Qed.

(** X18.  No voice command removes data: whatever the action (also delete
    and unknown) and whatever the entries, every row that existed is still
    at its position after [handleVoiceUpdate], with every field it had
    (possibly with a new value). *)
Theorem voice_update_keeps_rows (now : Z) (result : VoiceUpdateResult.t) (st : State)
    (table : TableData.t) (j : nat) (r : Cell) :
  currentTable st = Some table →
  TableData.rows table !! j = Some (Row r) →
  ∃ table' r',
    currentTable (handleVoiceUpdate now result st) = Some table'
    ∧ TableData.rows table' !! j = Some (Row r')
    ∧ (∀ k, is_Some (r !! k) → is_Some (r' !! k))
    ∧ TableData.columns table' = TableData.columns table.
Proof.
  intros Htable Hrow. unfold handleVoiceUpdate. rewrite Htable.
  destruct (applyRowUpdates_keeps_row result _ _ _ (copyRows_row _ _ _ Hrow))
    as (r' & Hr' & Hmono).
  eexists _, r'. split; [reflexivity|]. simpl. by split_and!.
Qed.

(** X19.  After a batch the table has one more row for every entry that has
    [rowIndex = -1] or comes under the action append, and no other change
    of length. *)
Theorem voice_update_row_count (result : VoiceUpdateResult.t) (rows : list Slot) :
  length (applyRowUpdates result rows)
  = (length rows
     + length (List.filter (addsRow (VoiceUpdateResult.action result))
                           (VoiceUpdateResult.rowUpdates result)))%nat.
Proof.
  unfold applyRowUpdates. generalize (VoiceUpdateResult.action result). intros action.
  revert rows. induction (VoiceUpdateResult.rowUpdates result) as [|u us IH];
    intros rows; simpl; [lia|].
  rewrite IH. unfold applyRowUpdate, addsRow.
  destruct ((RowUpdate.rowIndex u =? -1) || _); simpl.
  - rewrite length_app. simpl. lia.
  - destruct (_ && _); by rewrite ?length_insert.
Qed.

End TableMore.

(** ** Further properties of the CSV import *)

Section CsvMore.
Import FileService.
Context `{Engine}.

Lemma parseCells_row_cons values idx col rest row :
  (parseCells values idx (col :: rest) row).1
  = (parseCells values (S idx) rest
       (<[Column.id col := cellValueOf (default "" (values !! idx))]> row)).1.
Proof.
  cbn [parseCells]. unfold cellValueOf.
  destruct (isCanonicalNumber (default "" (values !! idx)));
    by destruct (parseCells values (S idx) rest _).
Qed.

Lemma parseCells_row_miss values key : ∀ cols idx row,
  key ∉ map Column.id cols →
  (parseCells values idx cols row).1 !! key = row !! key.
Proof.
  induction cols as [|col rest IH]; intros idx row Hkey; [done|].
  rewrite parseCells_row_cons. simpl in Hkey.
  apply not_elem_of_cons in Hkey as [Hne Hkey].
  rewrite IH by done. by apply lookup_insert_ne.
Qed.

Lemma parseCells_row_hit values : ∀ cols idx row k col,
  NoDup (map Column.id cols) →
  cols !! k = Some col →
  (parseCells values idx cols row).1 !! Column.id col
  = Some (cellValueOf (default "" (values !! (idx + k)%nat))).
Proof.
  induction cols as [|col0 rest IH]; intros idx row k col Hnd Hk; [done|].
  rewrite parseCells_row_cons. simpl in Hnd. apply NoDup_cons in Hnd as [Hnot Hnd].
  destruct k as [|k]; simpl in Hk.
  - injection Hk as <-. rewrite parseCells_row_miss by done.
    by rewrite Nat.add_0_r, lookup_insert_eq.
  - rewrite (IH (S idx) _ k col Hnd Hk). by rewrite Nat.add_succ_r.
Qed.

Lemma parseCells_ids values : ∀ cols idx row,
  map Column.id (parseCells values idx cols row).2 = map Column.id cols.
Proof.
  induction cols as [|col rest IH]; intros idx row; [done|]. cbn [parseCells].
  destruct (isCanonicalNumber _).
  - specialize (IH (S idx) (<[Column.id col :=
        VNumber (parseFloat (default "" (values !! idx)))]> row)).
    destruct (parseCells values (S idx) rest _). simpl in *.
    by rewrite upgrade_id, IH.
  - specialize (IH (S idx) (<[Column.id col :=
        VString (default "" (values !! idx))]> row)).
    destruct (parseCells values (S idx) rest _). simpl in *. by rewrite IH.
Qed.

(** The row built for a line depends on the ids of the columns only, not on
    the types inferred so far. *)
Lemma parseCells_row_same_ids values : ∀ cols cols' idx row,
  map Column.id cols = map Column.id cols' →
  (parseCells values idx cols row).1 = (parseCells values idx cols' row).1.
Proof.
  induction cols as [|col rest IH]; intros [|col' rest'] idx row Hids; try done.
  rewrite !parseCells_row_cons. simpl in Hids. injection Hids as Hid Hrest.
  rewrite Hid. by apply IH.
Qed.

Lemma parseRows_rows lines : ∀ cols k,
  (parseRows lines cols).1 !! k
  = (λ line, (parseCells (fields line) 0 cols ∅).1) <$> lines !! k.
Proof.
  induction lines as [|line more IH]; intros cols k; [done|]. cbn [parseRows].
  pose proof (parseCells_ids (fields line) cols 0 ∅) as Hids.
  destruct (parseCells (fields line) 0 cols ∅) as [row cols1] eqn:Hcells.
  specialize (IH cols1).
  destruct (parseRows more cols1) as [rows cols2]. simpl in *.
  destruct k as [|k]; simpl; [by rewrite Hcells|].
  rewrite IH. destruct (more !! k) as [l|]; [|done]. simpl. f_equal.
  by apply parseCells_row_same_ids.
Qed.

Lemma parseRows_length lines : ∀ cols,
  length (parseRows lines cols).1 = length lines.
Proof.
  induction lines as [|line more IH]; intros cols; [done|]. cbn [parseRows].
  destruct (parseCells (fields line) 0 cols ∅) as [row cols1].
  specialize (IH cols1). destruct (parseRows more cols1). simpl in *. by rewrite IH.
Qed.

Lemma initialColumns_ids headers :
  map Column.id (initialColumns headers) = columnIdAt <$> seq 0 (length headers).
Proof.
  apply list_eq. intros k. rewrite !list_lookup_fmap, initialColumns_lookup.
  destruct (decide (k < length headers)%nat) as [Hlt|Hge].
  - rewrite lookup_seq_lt by done. by destruct (lookup_lt_is_Some_2 _ _ Hlt) as [h ->].
  - rewrite lookup_seq_ge by lia. by rewrite lookup_ge_None_2 by lia.
Qed.

Lemma columnIdAt_inj : Inj (=) (=) columnIdAt.
Proof.
  intros i j Hij. unfold columnIdAt in Hij.
  apply (inj (String.app "col_")) in Hij. by apply (inj pretty) in Hij.
Qed.

Lemma initialColumns_NoDup headers : NoDup (map Column.id (initialColumns headers)).
Proof.
  rewrite initialColumns_ids. apply NoDup_fmap_2; [apply columnIdAt_inj | apply NoDup_seq].
Qed.

(** X20.  The import fails, with the error [Empty file], exactly when every
    line of the file is blank (an empty file has one blank line). *)
Theorem parseCSV_fails_iff_blank (uuid : string) (now1 now2 : Z)
    (content fileName : string) :
  parseCSV uuid now1 now2 content fileName = None
  ↔ Forall (λ line, JS.trim line = "") (JS.splitLines content).
Proof.
  unfold parseCSV, nonBlankLines.
  induction (JS.splitLines content) as [|line lines IH]; simpl.
  - split; [constructor | done].
  - destruct (String.eqb_spec (JS.trim line) "") as [Hblank|Hne]; simpl.
    + rewrite IH. split; [by constructor | by inversion 1].
    + destruct (parseRows _ _). split; [done | by inversion 1].
Qed.

(** X21.  A successful import yields one row per non-blank data line, in
    order and without holes.  Each row has exactly the keys [col_0] ...
    [col_(n-1)] for the [n] header fields, whatever the number of fields of
    its line (a missing field is the empty text, a surplus field is
    dropped), and holds under [col_idx] the number when the field text is a
    canonical number and the field text otherwise. *)
Theorem parseCSV_rows (uuid : string) (now1 now2 : Z) (content fileName : string)
    (t : TableData.t) :
  parseCSV uuid now1 now2 content fileName = Some t →
  ∃ header body,
    nonBlankLines content = header :: body
    ∧ length (TableData.rows t) = length body
    ∧ ∀ k line,
        body !! k = Some line →
        ∃ r,
          TableData.rows t !! k = Some (Row r)
          ∧ (∀ idx, (idx < length (fields header))%nat →
                    r !! columnIdAt idx = Some (cellValueOf (cellText line idx)))
          ∧ (∀ key, is_Some (r !! key) →
                    ∃ idx, (idx < length (fields header))%nat ∧ key = columnIdAt idx).
Proof.
  unfold parseCSV. intros Hparse.
  destruct (nonBlankLines content) as [|header body]; [done|].
  exists header, body. split; [done|].
  pose proof (parseRows_rows body (initialColumns (fields header))) as Hrows.
  pose proof (parseRows_length body (initialColumns (fields header))) as Hlen.
  destruct (parseRows body (initialColumns (fields header))) as [rows cols'].
  injection Hparse as <-. simpl in *. split; [by rewrite length_map|].
  intros k line Hline. rewrite list_lookup_fmap, Hrows, Hline. simpl.
  eexists. split; [reflexivity|]. split.
  - intros idx Hidx.
    destruct (lookup_lt_is_Some_2 (initialColumns (fields header)) idx) as [col Hcol].
    { unfold initialColumns. by rewrite length_imap. }
    assert (Hid : Column.id col = columnIdAt idx).
    { rewrite initialColumns_lookup in Hcol.
      destruct (fields header !! idx); [|done]. by injection Hcol as <-. }
    rewrite <- Hid.
    rewrite (parseCells_row_hit _ _ 0 ∅ idx col (initialColumns_NoDup _) Hcol).
    done.
  - intros key Hkey.
    destruct (decide (key ∈ map Column.id (initialColumns (fields header)))) as [Hin|Hout].
    + rewrite initialColumns_ids in Hin.
      apply list_elem_of_fmap in Hin as (idx & -> & Hidx).
      apply elem_of_seq in Hidx. exists idx. split; [lia | done].
    + rewrite parseCells_row_miss in Hkey by done.
      rewrite lookup_empty in Hkey. by destruct Hkey.
Qed.

End CsvMore.

(** ** Properties of the translation of model responses *)

Section Gemini.
Import GeminiService.




End Gemini.

(** ** Properties of the column settings *)

Section Columns.
Import ColumnSettings App.

(** X24.  Changing the label or the type of a column changes that column
    only and no column id; saving the edited columns leaves every row of
    the table as it was, so the data stays under the same ids. *)
Theorem column_edit_keeps_ids (index : nat) (field : Field) (value : string)
    (columns columns' : list Column.t) :
  field ≠ FieldId →
  handleChange index field value columns = Some columns' →
  map Column.id columns' = map Column.id columns
  ∧ (∀ j, j ≠ index → columns' !! j = columns !! j)
  ∧ ∀ st table,
      currentTable st = Some table →
      ∃ table',
        currentTable (saveColumns columns' st) = Some table'
        ∧ TableData.columns table' = columns'
        ∧ TableData.rows table' = TableData.rows table.
Proof.
  intros Hfield. unfold handleChange.
  destruct (columns !! index) as [col|] eqn:Hcol; [|done]. simpl.
  assert (Hgen : ∀ edited, Column.id edited = Column.id col →
            map Column.id (<[index := edited]> columns) = map Column.id columns
            ∧ (∀ j, j ≠ index → <[index := edited]> columns !! j = columns !! j)
            ∧ ∀ st table,
                currentTable st = Some table →
                ∃ table',
                  currentTable (saveColumns (<[index := edited]> columns) st) = Some table'
                  ∧ TableData.columns table' = <[index := edited]> columns
                  ∧ TableData.rows table' = TableData.rows table).
  { intros edited Hid. split_and!.
    - rewrite list_fmap_insert, Hid. apply list_insert_id.
      by rewrite list_lookup_fmap, Hcol.
    - intros j Hj. by apply list_lookup_insert_ne.
    - intros st table Htable. unfold saveColumns. rewrite Htable. eauto. }
  destruct field; [done| |].
  - intros [= <-]. by apply Hgen.
  - destruct (typeOfText value) as [ty|]; [|done]. simpl.
    intros [= <-]. by apply Hgen.
Qed.

End Columns.

(** ** The further theorems at sample inputs *)

Section MoreInstances.
Import WorkflowWizard GuidedSession App FileService.

Lemma deleteSelected_keeps_unselected_witness :
  ∃ kept steps',
    plan (deleteSelected blockWizard) = Some (withSteps blockPlan steps')
    ∧ selectedIndices (deleteSelected blockWizard) = []
    ∧ StronglySorted lt kept
    ∧ (∀ i, i ∈ kept ↔ (i < length (WorkflowPlan.steps blockPlan))%nat
                       ∧ i ∉ selectedIndices blockWizard)
    ∧ Forall2 (λ i step, WorkflowPlan.steps blockPlan !! i = Some step) kept steps'
    ∧ (NoDup (selectedIndices blockWizard) →
       Forall (λ i, (i < length (WorkflowPlan.steps blockPlan))%nat)
              (selectedIndices blockWizard) →
       (length steps' + length (selectedIndices blockWizard)
        = length (WorkflowPlan.steps blockPlan))%nat).
Proof.
  apply (deleteSelected_keeps_unselected blockWizard blockPlan);
    [reflexivity | discriminate].
Defined.

Lemma deleteStep_removes_one_witness :
  plan (deleteStep 1 blockWizard)
  = Some (withSteps blockPlan (delete 1%nat (WorkflowPlan.steps blockPlan)))
  ∧ selectedIndices (deleteStep 1 blockWizard) = []
  ∧ ((length (WorkflowPlan.steps blockPlan) ≤ 1)%nat →
     plan (deleteStep 1 blockWizard)
     = Some (withSteps blockPlan (WorkflowPlan.steps blockPlan))).
Proof. apply (deleteStep_removes_one 1 blockWizard blockPlan). reflexivity. Defined.

(** The sample state [blockWizard] is reached from the opening state: two
    steps are selected, the second step is opened for editing, and its
    instruction and row are retyped. *)
Lemma blockWizard_reachable : wizardReaches En blockTable blockWizard.
Proof.
  assert (Hrendered : ∀ st i, WorkflowWizard.plan st = Some blockPlan → (i < 4)%nat →
                              rendered st i).
  { intros st i Hplan Hi. by exists blockPlan. }
  apply (reaches_step En blockTable
           (WorkflowWizard.mkState (Some blockPlan) (Some "b") "Blooms" "5" "c1" None
                                   [2%nat; 0%nat])
           (EvEditRowIndex "1")); [|by exists 1%nat, blockPlan; eexists | done].
  apply (reaches_step En blockTable
           (WorkflowWizard.mkState (Some blockPlan) (Some "b") "Blooms, row five" "5" "c1"
                                   None [2%nat; 0%nat])
           (EvEditInstruction "Blooms")); [|by exists 1%nat, blockPlan; eexists | done].
  apply (reaches_step En blockTable
           (WorkflowWizard.mkState (Some blockPlan) None "" "" "" None [2%nat; 0%nat])
           (EvStartEditing 1 0)); [|apply Hrendered; [done | lia] | done].
  apply (reaches_step En blockTable
           (WorkflowWizard.mkState (Some blockPlan) None "" "" "" None [2%nat])
           (EvToggleSelection 0)); [|apply Hrendered; [done | lia] | done].
  apply (reaches_step En blockTable (wizardOpens blockTable) (EvToggleSelection 2));
    [apply reaches_open | apply Hrendered; [done | lia] | done].
Qed.

Lemma wizardReaches_selectionValid_witness : selectionValid blockWizard.
Proof.
  apply (wizardReaches_selectionValid En blockTable). exact blockWizard_reachable.
Defined.

Lemma blockWizard_selectionValid : selectionValid blockWizard.
Proof.
  split.
  - apply NoDup_cons. split; [|apply NoDup_singleton].
    intros Hin. apply list_elem_of_singleton in Hin. discriminate.
  - repeat constructor; exists blockPlan; (split; [reflexivity | simpl; lia]).
Qed.

Lemma duplicateSelected_never_throws_witness :
  ∃ st',
    duplicateSelected copyId blockWizard = Some st'
    ∧ selectedIndices st' = []
    ∧ ∀ p, plan blockWizard = Some p →
           ∃ dups, plan st' = Some (withSteps p (WorkflowPlan.steps p ++ dups)).
Proof.
  apply (duplicateSelected_never_throws copyId blockWizard).
  exact blockWizard_selectionValid.
Defined.

Lemma edit_unchanged_round_trip_witness :
  ∃ st',
    saveStepEdit 2
      (startEditing (WorkflowStep.mk "c" "Anode, row eight" 7 "c0" ExpectNumber) 2 5
                    blockWizard)
    = Some st'
    ∧ editRowIndex
        (startEditing (WorkflowStep.mk "c" "Anode, row eight" 7 "c0" ExpectNumber) 2 5
                      blockWizard)
      = "8"
    ∧ plan st' = Some blockPlan
    ∧ editingStepId st' = None
    ∧ selectedIndices st' = selectedIndices blockWizard.
Proof.
  apply (edit_unchanged_round_trip blockWizard blockPlan 2
           (WorkflowStep.mk "c" "Anode, row eight" 7 "c0" ExpectNumber) 5).
  - reflexivity.
  - reflexivity.
  - simpl. lia.
Defined.

Lemma captureValue_number_spec_witness :
  captureValue ExpectNumber "около 12,5 кг"
  = default "около 12,5 кг" (specNumberValue "около 12,5 кг").
Proof. apply captureValue_number_spec. vm_compute. lia. Defined.

Lemma reorderStep_permutes_witness :
  ∃ steps',
    reorderStep (WorkflowPlan.steps blockPlan) 0 9 = Some steps'
    ∧ steps' ≡ₚ WorkflowPlan.steps blockPlan
    ∧ length steps' = length (WorkflowPlan.steps blockPlan)
    ∧ steps' !! (9 `min` (length (WorkflowPlan.steps blockPlan) - 1))%nat
      = WorkflowPlan.steps blockPlan !! 0%nat
    ∧ reorderStep (WorkflowPlan.steps blockPlan) 0 0 = Some (WorkflowPlan.steps blockPlan).
Proof.
  eexists. split; [reflexivity|].
  apply (reorderStep_permutes (WorkflowPlan.steps blockPlan) _ 0 9). reflexivity.
Defined.

Lemma handleResult_one_step_witness :
  ∃ st' effs,
    let cleanText := toLowerCase (Engine := basicEngine) (JS.trim "twelve point five") in
    let stop := existsb (λ w, JS.includes cleanText w) (stopWords En) in
    handleResult (H := basicEngine) En quantityPlan sessionStart "twelve point five"
    = Some (st', effs)
    ∧ (length (List.filter isWrite effs) ≤ 1)%nat
    ∧ (currentStepIndex st' < length (WorkflowPlan.steps quantityPlan))%nat
    ∧ (cleanText = "" → st' = sessionStart ∧ effs = [])
    ∧ (cleanText ≠ "" →
       stop = true
       ∨ S (currentStepIndex sessionStart) = length (WorkflowPlan.steps quantityPlan) →
       st' = sessionStart ∧ existsb isClose effs = true)
    ∧ (cleanText ≠ "" →
       stop = false →
       (S (currentStepIndex sessionStart) < length (WorkflowPlan.steps quantityPlan))%nat →
       st' = GuidedSession.mkState (S (currentStepIndex sessionStart))
                                   (isListening sessionStart) ""
       ∧ existsb isClose effs = false).
Proof.
  apply (handleResult_one_step (H := basicEngine) En quantityPlan sessionStart
           "twelve point five").
  simpl. lia.
Defined.

Lemma skip_word_never_writes_witness :
  ∃ st' effs,
    handleResult (H := basicEngine) En quantityPlan sessionStart "Next 42" = Some (st', effs)
    ∧ Forall (λ e, isWrite e = false) effs
    ∧ ((S (currentStepIndex sessionStart) < length (WorkflowPlan.steps quantityPlan))%nat →
       st' = GuidedSession.mkState (S (currentStepIndex sessionStart))
                                   (isListening sessionStart) ""
       ∧ existsb isClose effs = false)
    ∧ ((length (WorkflowPlan.steps quantityPlan) ≤ S (currentStepIndex sessionStart))%nat →
       st' = sessionStart ∧ existsb isClose effs = true).
Proof.
  apply (skip_word_never_writes (H := basicEngine) En quantityPlan sessionStart
           "Next 42" "next").
  - intros s Hs. simpl in Hs.
    repeat (apply elem_of_cons in Hs as [->|Hs]; [reflexivity|]).
    by apply elem_of_nil in Hs.
  - apply list_elem_of_further, list_elem_of_here.
  - reflexivity.
Defined.

Lemma session_never_writes_empty_witness : (0 < String.length "-3.5")%nat.
Proof.
  apply (session_never_writes_empty (H := basicEngine) En quantityPlan sessionStart
           (GuidedSession.mkState 1 false "") "minus -3.5 C"
           [Log (userSaid "minus -3.5 c"); OnValueReceived 0 "c0" "-3.5"] 0 "c0" "-3.5").
  - reflexivity.
  - apply list_elem_of_further, list_elem_of_here.
Defined.

(** The sample plan fits the sample table: one row, and steps on rows 0
    and 1. *)
Lemma quantityPlan_fits : planFits quantityPlan stockApp.
Proof.
  intros table [= <-]. split.
  - repeat constructor. by eexists.
  - repeat constructor; simpl; lia.
Qed.

Lemma runSession_safe_witness :
  ∃ closed st' app',
    runSession (H := basicEngine) En quantityPlan 7 sessionStart stockApp
               ["4"; "  "; "skip"]
    = Some (closed, st', app')
    ∧ (currentStepIndex sessionStart ≤ currentStepIndex st'
       < length (WorkflowPlan.steps quantityPlan))%nat
    ∧ (length (App.saved app') ≤ length (App.saved stockApp) + length ["4"; "  "; "skip"])%nat
    ∧ planFits quantityPlan app'
    ∧ (closed = false →
       currentStepIndex st'
       = (currentStepIndex sessionStart + spoken (H := basicEngine) ["4"; "  "; "skip"])%nat
       ∧ Forall (λ text, saidStop (H := basicEngine) En text = false) ["4"; "  "; "skip"])
    ∧ (closed = true →
       Exists (λ text, saidStop (H := basicEngine) En text = true) ["4"; "  "; "skip"]
       ∨ (length (WorkflowPlan.steps quantityPlan)
          ≤ currentStepIndex sessionStart + spoken (H := basicEngine) ["4"; "  "; "skip"])%nat).
Proof.
  apply (runSession_safe (H := basicEngine) En quantityPlan 7 ["4"; "  "; "skip"]
           sessionStart stockApp).
  - simpl. lia.
  - exact quantityPlan_fits.
Defined.

Lemma runSession_completes_witness :
  ∃ st' app',
    runSession (H := basicEngine) En quantityPlan 7 sessionStart stockApp
               ["4"; "skip"; "fine"; "9"]
    = Some (true, st', app')
    ∧ planFits quantityPlan app'
    ∧ (Forall (λ text, saidStop (H := basicEngine) En text = false)
              ["4"; "skip"; "fine"; "9"] →
       S (currentStepIndex st') = length (WorkflowPlan.steps quantityPlan)).
Proof.
  apply (runSession_completes (H := basicEngine) En quantityPlan 7
           ["4"; "skip"; "fine"; "9"] sessionStart stockApp).
  - simpl. lia.
  - exact quantityPlan_fits.
  - repeat constructor; discriminate.
  - simpl. lia.
Defined.

(** A plan that skips rows makes the application throw: the first write,
    to row 3 of the empty table, leaves rows 0 to 2 as holes; the second
    write copies them as [undefined], and the render of the table fails. *)
Example session_skipping_rows_throws :
  (∃ st app,
     runSession (H := basicEngine) En skippingPlan 1 sessionStart
                (App.mkState (Some qtyTable) None []) ["5"]
     = Some (false, st, app)
     ∧ TableData.rows <$> currentTable app
       = Some [Hole; Hole; Hole; Row {[ "c0" := VString "5" ]}])
  ∧ runSession (H := basicEngine) En skippingPlan 1 sessionStart
               (App.mkState (Some qtyTable) None []) ["5"; "6"]
    = None.
Proof. split; [eexists _, _; split; vm_compute; reflexivity | vm_compute; reflexivity]. Qed.



(** Beyond the first free position the two orders, and one write against
    two, differ in holes and [undefined] positions. *)
Example guided_writes_hole_or_undefined :
  guidedRows stockColumns
    (guidedRows stockColumns (TableData.rows stockTable) 3 "c0" "7") 1 "c1" "late"
  = [Row {[ "c0" := VString "5"; "c1" := VString "ok" ]};
     Row {[ "c0" := VString ""; "c1" := VString "late" ]};
     Undefined;
     Row {[ "c0" := VString "7"; "c1" := VString "" ]}]
  ∧ guidedRows stockColumns
      (guidedRows stockColumns (TableData.rows stockTable) 1 "c1" "late") 3 "c0" "7"
    = [Row {[ "c0" := VString "5"; "c1" := VString "ok" ]};
       Row {[ "c0" := VString ""; "c1" := VString "late" ]};
       Hole;
       Row {[ "c0" := VString "7"; "c1" := VString "" ]}].
Proof. vm_compute. split; reflexivity. Qed.

Lemma guided_write_as_manual_edit_witness :
  (∀ i r,
     TableData.rows stockTable !! i = Some (Row r) →
     currentTable (handleGuidedValue 8 9 (Z.of_nat i) "c1" "late" stockApp)
     = currentTable (handleManualCellChange 8 9 i "c1" "late" stockApp))
  ∧ currentTable
      (handleGuidedValue 8 9 (Z.of_nat (length (TableData.rows stockTable))) "c1" "late"
                         stockApp)
    = currentTable
        (handleManualCellChange 8 9 (length (TableData.rows stockTable)) "c1" "late"
           (addRowClick stockApp)).
Proof.
  apply (guided_write_as_manual_edit 8 9 stockApp stockTable "c1" "late"). reflexivity.
Defined.

Lemma voice_update_keeps_rows_witness :
  ∃ table' r',
    currentTable
      (handleVoiceUpdate 9 (VoiceUpdateResult.mk [noteUpdate 0; noteUpdate (-1)] ActDelete "?")
                         stockApp)
    = Some table'
    ∧ TableData.rows table' !! 0%nat = Some (Row r')
    ∧ (∀ k, is_Some (({[ "c0" := VString "5"; "c1" := VString "ok" ]} : Cell) !! k) →
            is_Some (r' !! k))
    ∧ TableData.columns table' = TableData.columns stockTable.
Proof.
  apply (voice_update_keeps_rows 9
           (VoiceUpdateResult.mk [noteUpdate 0; noteUpdate (-1)] ActDelete "?")
           stockApp stockTable 0 {[ "c0" := VString "5"; "c1" := VString "ok" ]});
    reflexivity.
Defined.

Lemma parseCSV_rows_witness :
  ∃ t,
    parseCSV (H := basicEngine) "id-2" 10 11 threeLineCsv "lines.csv" = Some t
    ∧ ∃ header body,
        nonBlankLines threeLineCsv = header :: body
        ∧ length (TableData.rows t) = length body
        ∧ ∀ k line,
            body !! k = Some line →
            ∃ r,
              TableData.rows t !! k = Some (Row r)
              ∧ (∀ idx, (idx < length (fields header))%nat →
                        r !! columnIdAt idx
                        = Some (cellValueOf (H := basicEngine) (cellText line idx)))
              ∧ (∀ key, is_Some (r !! key) →
                        ∃ idx, (idx < length (fields header))%nat ∧ key = columnIdAt idx).
Proof.
  destruct (parseCSV (H := basicEngine) "id-2" 10 11 threeLineCsv "lines.csv")
    as [t|] eqn:Hparse.
  - exists t. split; [reflexivity|].
    exact (parseCSV_rows (H := basicEngine) "id-2" 10 11 threeLineCsv "lines.csv" t Hparse).
  - vm_compute in Hparse. discriminate.
Defined.

Lemma column_edit_keeps_ids_witness :
  ∃ columns',
    ColumnSettings.handleChange 0 ColumnSettings.FieldLabel "Quantity" stockColumns
    = Some columns'
    ∧ map Column.id columns' = map Column.id stockColumns
    ∧ (∀ j, j ≠ 0%nat → columns' !! j = stockColumns !! j)
    ∧ ∀ st table,
        currentTable st = Some table →
        ∃ table',
          currentTable (saveColumns columns' st) = Some table'
          ∧ TableData.columns table' = columns'
          ∧ TableData.rows table' = TableData.rows table.
Proof.
  eexists. split; [reflexivity|].
  apply (column_edit_keeps_ids 0 ColumnSettings.FieldLabel "Quantity" stockColumns);
    [discriminate | reflexivity].
Defined.

Example import_three_lines :
  TableData.rows
    <$> parseCSV (H := basicEngine) "id-2" 10 11 threeLineCsv "lines.csv"
  = Some [Row {[ "col_0" := VNumber (BasicEngine.parseFloat "1"); "col_1" := VString "" ]};
          Row {[ "col_0" := VString "x"; "col_1" := VString "y" ]}].
Proof. vm_compute. reflexivity. Qed.

Example delete_selected_sample :
  map WorkflowStep.id
    <$> (WorkflowPlan.steps <$> plan (deleteSelected
           (setSelectedIndices [3%nat; 1%nat] blockWizard)))
  = Some ["a"; "c"].
Proof. reflexivity. Qed.

End MoreInstances.
